(** * The logging middleware (Logging_Middleware/src/logger.ts, factory.ts)

    A shallow embedding of the [LoggingMiddleware] class and of the factory
    helpers, followed by the properties of the delivery loop, the console
    echo, the token update and the configuration profiles.

    Conventions.  JavaScript numbers are integers ([Z]); strings are
    [string]; a method is a computation of the monad [M] over a [World]
    that holds the instance, the effects produced so far and the
    environment; a rejected promise is [Throw]; [null] is [None].  The
    [async] methods are run to completion one after the other. *)

From Stdlib Require Import ZArith Ascii String List Lia.
From stdpp Require Import base tactics option list numbers strings pretty gmap.

Local Open Scope string_scope.
Local Open Scope list_scope.
Local Open Scope Z_scope.

(** ** Values exchanged with the JavaScript runtime *)

(** The values a response body can parse to.  Numbers are kept to the
    integers. *)
#[warnings="-register-all"]
Inductive JsValue :=
  | JsUndefined
  | JsNull
  | JsBool (b : bool)
  | JsNumber (n : Z)
  | JsString (s : string)
  | JsObject (fields : list (string * JsValue)).

(** Truthiness, as [&&] and [if] test it. *)
Definition truthy (v : JsValue) : bool :=
  match v with
  | JsUndefined | JsNull => false
  | JsBool b => b
  | JsNumber n => negb (n =? 0)
  | JsString s => negb (String.eqb s "")
  | JsObject _ => true
  end.

(** [String.prototype.toUpperCase] on the ASCII letters. *)
Definition upper_ascii (c : ascii) : ascii :=
  let n := nat_of_ascii c in
  if ((97 <=? n) && (n <=? 122))%nat then ascii_of_nat (n - 32) else c.

Fixpoint toUpperCase (s : string) : string :=
  match s with
  | EmptyString => EmptyString
  | String c rest => String (upper_ascii c) (toUpperCase rest)
  end.

(** ** types.d.ts *)

Definition LogLevel : list string := ["debug"; "info"; "warn"; "error"; "fatal"].
Definition LogStack : list string := ["backend"; "frontend"].
Definition LogPackage : list string :=
  ["cache"; "controller"; "cron_job"; "db"; "domain"; "handler"; "repository";
   "route"; "service"; "api"; "component"; "hook"; "page"; "state"; "style";
   "auth"; "config"; "middleware"; "utils"].

(** [LoggerConfig], as the caller passes it: [None] is an optional key that
    is left out. *)
Record LoggerConfig := {
  cfg_apiUrl : string;
  cfg_accessToken : string;
  cfg_defaultStack : string;
  cfg_enableConsoleLog : option bool;
  cfg_retryAttempts : option Z;
  cfg_retryDelay : option Z
}.

(** The object kept in [this.config]: the constructor has filled in the
    three optional keys. *)
Record Config := {
  apiUrl : string;
  accessToken : string;
  defaultStack : string;
  enableConsoleLog : bool;
  retryAttempts : Z;
  retryDelay : Z
}.

Record LogEntry := {
  stack : string;
  level : string;
  package : string;
  message : string
}.


(** ** The HTTP client, seen from the class *)

Record AxiosResponse := {
  status : Z;
  data : JsValue
}.

(** A thrown value: [axios.isAxiosError], the optional [response] and the
    [message]. *)
Record JsError := {
  isAxiosError : bool;
  response : option AxiosResponse;
  err_message : string
}.

Inductive Settled (A : Type) :=
  | Fulfilled (a : A)
  | Rejected (e : JsError).
Arguments Fulfilled {A} a.
Arguments Rejected {A} e.

(** What [axios.create] keeps of its argument, under [defaults]. *)
Record AxiosInstance := {
  defaults_baseURL : string;
  defaults_headers : gmap string string;
  defaults_timeout : Z
}.

(** A dispatched request: the instance defaults merged with the call. *)
Record HttpRequest := {
  method : string;
  baseURL : string;
  url : string;
  headers : gmap string string;
  timeout : Z;
  body : LogEntry
}.

(** ** Observable effects *)

Inductive ConsoleMethod :=
  | console_debug | console_info | console_warn | console_error | console_log.

Inductive ConsoleArg :=
  | ArgString (s : string)
  | ArgError (e : JsError)
  | ArgEntry (e : LogEntry)
  | ArgUndefined.

Inductive Event :=
  | Console (m : ConsoleMethod) (args : list ConsoleArg)
  | Request (r : HttpRequest)
  | Delay (ms : Z).

Record LoggingMiddleware := {
  config : Config;
  apiClient : AxiosInstance
}.

(** The instance, the effects it has produced so far (oldest first), and
    its environment: how the k-th dispatched request settles, how many
    requests have been dispatched, and what [new Date().toISOString()]
    reads. *)
Record World := {
  this : LoggingMiddleware;
  effects : list Event;
  collector : nat -> Settled AxiosResponse;
  dispatched : nat;
  clock : string
}.

(** ** A state and exception monad for the methods *)

Inductive Completion (A : Type) :=
  | Normal (a : A)
  | Throw (e : JsError)
  | OutOfFuel.
Arguments Normal {A} a.
Arguments Throw {A} e.
Arguments OutOfFuel {A}.

Definition M (A : Type) : Type := World -> Completion A * World.

Definition ret {A} (a : A) : M A := fun w => (Normal a, w).

Definition bind {A B} (m : M A) (k : A -> M B) : M B :=
  fun w =>
    match m w with
    | (Normal a, w') => k a w'
    | (Throw e, w') => (Throw e, w')
    | (OutOfFuel, w') => (OutOfFuel, w')
    end.

Declare Scope js_scope.
Delimit Scope js_scope with js.
Notation "x <- m ;; k" := (bind m (fun x => k))
  (at level 100, m at next level, right associativity) : js_scope.
Notation "m ;; k" := (bind m (fun _ => k))
  (at level 100, right associativity) : js_scope.
Local Open Scope js_scope.

(** [try { body } catch (error) { handler }]: the effects of [body] up to
    the throw stay. *)
Definition try_catch {A} (body : M A) (handler : JsError -> M A) : M A :=
  fun w =>
    match body w with
    | (Throw e, w') => handler e w'
    | r => r
    end.

Definition out_of_fuel {A} : M A := fun w => (OutOfFuel, w).

Definition when (b : bool) (m : M unit) : M unit :=
  if b then m else ret tt.

Definition get_this : M LoggingMiddleware := fun w => (Normal (this w), w).

Definition set_this (o : LoggingMiddleware) : M unit :=
  fun w =>
    (Normal tt,
     {| this := o; effects := effects w; collector := collector w;
        dispatched := dispatched w; clock := clock w |}).

Definition emit (e : Event) (w : World) : World :=
  {| this := this w; effects := effects w ++ [e]; collector := collector w;
     dispatched := dispatched w; clock := clock w |}.

Definition console (m : ConsoleMethod) (args : list ConsoleArg) : M unit :=
  fun w => (Normal tt, emit (Console m args) w).

(** [new Date().toISOString()] *)
Definition Date_toISOString : M string := fun w => (Normal (clock w), w).

(** [await p] *)
Definition await {A} (p : Settled A) : Completion A :=
  match p with
  | Fulfilled a => Normal a
  | Rejected e => Throw e
  end.

(** [await this.apiClient.post(url, data)]: the request leaves with the
    defaults the instance holds at that moment and settles as the
    environment decides. *)
Definition post (path : string) (payload : LogEntry) : M AxiosResponse :=
  fun w =>
    let client := apiClient (this w) in
    let req := {| method := "POST";
                  baseURL := defaults_baseURL client;
                  url := path;
                  headers := defaults_headers client;
                  timeout := defaults_timeout client;
                  body := payload |} in
    (await (collector w (dispatched w)),
     {| this := this w; effects := effects w ++ [Request req];
        collector := collector w; dispatched := S (dispatched w);
        clock := clock w |}).

(** ** class LoggingMiddleware *)

(** [constructor(config)]: the three defaults come first in the object
    literal and the caller's keys are spread over them; the client is
    created from the merged object. *)
Definition constructor (c : LoggerConfig) : LoggingMiddleware :=
  let merged :=
    {| apiUrl := cfg_apiUrl c;
       accessToken := cfg_accessToken c;
       defaultStack := cfg_defaultStack c;
       enableConsoleLog := default true (cfg_enableConsoleLog c);
       retryAttempts := default 3 (cfg_retryAttempts c);
       retryDelay := default 1000 (cfg_retryDelay c) |} in
  {| config := merged;
     apiClient :=
       {| defaults_baseURL := apiUrl merged;
          defaults_headers :=
            <["Authorization" := "Bearer " +:+ accessToken merged]>
              (<["Content-Type" := "application/json"]> ∅);
          defaults_timeout := 10000 |} |}.

(** [delay(ms)], awaited. *)
Definition delay (ms : Z) : M unit :=
  fun w => (Normal tt, emit (Delay ms) w).

Definition logToConsole (logEntry : LogEntry) : M unit :=
  timestamp <- Date_toISOString;;
  let logMessage :=
    "[" +:+ timestamp +:+ "] [" +:+ toUpperCase (stack logEntry) +:+ "] ["
        +:+ toUpperCase (level logEntry) +:+ "] [" +:+ package logEntry
        +:+ "] " +:+ message logEntry in
  if String.eqb (level logEntry) "debug" then
    console console_debug [ArgString logMessage]
  else if String.eqb (level logEntry) "info" then
    console console_info [ArgString logMessage]
  else if String.eqb (level logEntry) "warn" then
    console console_warn [ArgString logMessage]
  else if String.eqb (level logEntry) "error"
          || String.eqb (level logEntry) "fatal" then
    console console_error [ArgString logMessage]
  else
    console console_log [ArgString logMessage].

(** How one turn of the [for] loop of [sendLogToAPI] ends. *)
Inductive Flow :=
  | Next (lastError : option JsError)
  | Break (lastError : option JsError)
  | Return (v : JsValue).

(** [axiosError.response?.status === 401 || ... === 403] *)
Definition auth_status (error : JsError) : bool :=
  match response error with
  | Some r => (status r =? 401) || (status r =? 403)
  | None => false
  end.

(** The body of the [for] loop: the [try] block and its [catch]. *)
Definition attempt_body (logEntry : LogEntry) (attempt : Z)
    (lastError : option JsError) : M Flow :=
  try_catch
    (response <- post "/logs" logEntry;;
     if (status response =? 200) && truthy (data response) then
       ret (Return (data response))
     else
       ret (Next lastError))
    (fun error =>
       o <- get_this;;
       when (enableConsoleLog (config o))
         (console console_warn
            [ArgString ("Log API attempt " +:+ pretty attempt +:+ "/"
                          +:+ pretty (retryAttempts (config o)) +:+ " failed:");
             ArgError error]);;
       if isAxiosError error && auth_status error then
         when (enableConsoleLog (config o))
           (console console_error
              [ArgString "Authentication failed for logging API. Check your access token."]);;
         ret (Break (Some error))
       else
         when (attempt <? retryAttempts (config o))
           (delay (retryDelay (config o) * attempt));;
         ret (Next (Some error))).

(** [for (let attempt = 1; attempt <= this.config.retryAttempts; attempt++)],
    entered at [attempt]; [fuel] bounds the number of turns. *)
Fixpoint for_attempts (fuel : nat) (logEntry : LogEntry) (attempt : Z)
    (lastError : option JsError) : M Flow :=
  o <- get_this;;
  if attempt <=? retryAttempts (config o) then
    match fuel with
    | O => out_of_fuel
    | S fuel' =>
        flow <- attempt_body logEntry attempt lastError;;
        match flow with
        | Next lastError' =>
            for_attempts fuel' logEntry (attempt + 1) lastError'
        | Break lastError' => ret (Break lastError')
        | Return v => ret (Return v)
        end
    end
  else ret (Break lastError).

(** [lastError?.message] *)
Definition optional_message (lastError : option JsError) : ConsoleArg :=
  match lastError with
  | Some e => ArgString (err_message e)
  | None => ArgUndefined
  end.

(** [sendLogToAPI(logEntry)]; [None] is [null].  The loop starts at
    attempt 1, so [retryAttempts] turns are all it can take. *)
Definition sendLogToAPI (logEntry : LogEntry) : M (option JsValue) :=
  o <- get_this;;
  flow <- for_attempts (Z.to_nat (retryAttempts (config o))) logEntry 1 None;;
  match flow with
  | Return v => ret (Some v)
  | Next lastError | Break lastError =>
      o' <- get_this;;
      when (enableConsoleLog (config o'))
        (console console_error
           [ArgString "Failed to send log to API after all retries:";
            optional_message lastError];;
         console console_error
           [ArgString "Original log entry:"; ArgEntry logEntry]);;
      ret None
  end.

Definition log (stack level packageName message : string)
    : M (option JsValue) :=
  let logEntry :=
    {| stack := stack; level := level; package := packageName;
       message := message |} in
  o <- get_this;;
  when (enableConsoleLog (config o)) (logToConsole logEntry);;
  sendLogToAPI logEntry.

Definition debug (packageName message : string) : M (option JsValue) :=
  o <- get_this;;
  log (defaultStack (config o)) "debug" packageName message.

Definition info (packageName message : string) : M (option JsValue) :=
  o <- get_this;;
  log (defaultStack (config o)) "info" packageName message.

Definition warn (packageName message : string) : M (option JsValue) :=
  o <- get_this;;
  log (defaultStack (config o)) "warn" packageName message.

Definition error (packageName message : string) : M (option JsValue) :=
  o <- get_this;;
  log (defaultStack (config o)) "error" packageName message.

Definition fatal (packageName message : string) : M (option JsValue) :=
  o <- get_this;;
  log (defaultStack (config o)) "fatal" packageName message.

Definition updateAccessToken (newToken : string) : M unit :=
  o <- get_this;;
  let config' :=
    {| apiUrl := apiUrl (config o);
       accessToken := newToken;
       defaultStack := defaultStack (config o);
       enableConsoleLog := enableConsoleLog (config o);
       retryAttempts := retryAttempts (config o);
       retryDelay := retryDelay (config o) |} in
  set_this {| config := config'; apiClient := apiClient o |};;
  o1 <- get_this;;
  let client := apiClient o1 in
  set_this
    {| config := config o1;
       apiClient :=
         {| defaults_baseURL := defaults_baseURL client;
            defaults_headers :=
              <["Authorization" := "Bearer " +:+ newToken]>
                (defaults_headers client);
            defaults_timeout := defaults_timeout client |} |}.

(** [getConfig()]: a fresh copy of the stored object. *)
Definition getConfig : M Config :=
  o <- get_this;;
  ret (config o).

(** ** factory.ts *)


Definition createFrontendLogger (apiUrl accessToken : string)
    : LoggingMiddleware :=
  constructor
    {| cfg_apiUrl := apiUrl;
       cfg_accessToken := accessToken;
       cfg_defaultStack := "frontend";
       cfg_enableConsoleLog := Some true;
       cfg_retryAttempts := Some 3;
       cfg_retryDelay := Some 1000 |}.

Definition createBackendLogger (apiUrl accessToken : string)
    : LoggingMiddleware :=
  constructor
    {| cfg_apiUrl := apiUrl;
       cfg_accessToken := accessToken;
       cfg_defaultStack := "backend";
       cfg_enableConsoleLog := Some false;
       cfg_retryAttempts := Some 5;
       cfg_retryDelay := Some 2000 |}.

(** ** The collector, seen through axios

    What a request meets on the network, and how the client settles it
    with its default [validateStatus]: a 2xx reply fulfils the promise, any
    other reply rejects it with an axios error that carries the response,
    and a request that gets no reply rejects it with an axios error that
    carries none. *)

Inductive NetworkOutcome :=
  | HttpReply (code : Z) (payload : JsValue)
  | NetworkError
  | TimedOut.

Definition axios_settle (o : NetworkOutcome) : Settled AxiosResponse :=
  match o with
  | HttpReply code payload =>
      let r := {| status := code; data := payload |} in
      if (200 <=? code) && (code <? 300) then Fulfilled r
      else Rejected
             {| isAxiosError := true;
                response := Some r;
                err_message := "Request failed with status code " +:+ pretty code |}
  | NetworkError =>
      Rejected {| isAxiosError := true; response := None;
                  err_message := "Network Error" |}
  | TimedOut =>
      Rejected {| isAxiosError := true; response := None;
                  err_message := "timeout of 10000ms exceeded" |}
  end.

(** ** Reading the effects of a call *)

Definition requests (evs : list Event) : list HttpRequest :=
  omap (fun ev => match ev with Request r => Some r | _ => None end) evs.

Definition waits (evs : list Event) : list Z :=
  omap (fun ev => match ev with Delay ms => Some ms | _ => None end) evs.

(** The effects a call has added between the worlds [w] and [w']. *)
Definition emitted (w w' : World) : list Event :=
  drop (length (effects w)) (effects w').

(** [w] after [evs] more effects, [n] of them requests. *)
Definition extend (w : World) (evs : list Event) (n : nat) : World :=
  {| this := this w; effects := effects w ++ evs; collector := collector w;
     dispatched := (dispatched w + n)%nat; clock := clock w |}.

(** The request [post "/logs"] dispatches from [o]. *)
Definition request_of (o : LoggingMiddleware) (logEntry : LogEntry)
    : HttpRequest :=
  {| method := "POST";
     baseURL := defaults_baseURL (apiClient o);
     url := "/logs";
     headers := defaults_headers (apiClient o);
     timeout := defaults_timeout (apiClient o);
     body := logEntry |}.

(** The line the spec describes for the console echo. *)
Definition echo_line (timestamp : string) (e : LogEntry) : string :=
  "[" +:+ timestamp +:+ "] [" +:+ toUpperCase (stack e) +:+ "] ["
      +:+ toUpperCase (level e) +:+ "] [" +:+ package e +:+ "] " +:+ message e.

(** The wiring the constructor gives the client. *)
Definition wired (o : LoggingMiddleware) : Prop :=
  defaults_baseURL (apiClient o) = apiUrl (config o) /\
  defaults_headers (apiClient o) =
    <["Authorization" := "Bearer " +:+ accessToken (config o)]>
      (<["Content-Type" := "application/json"]> ∅) /\
  defaults_timeout (apiClient o) = 10000.

(** The events the delivery loop and its closing diagnostic can produce. *)
Inductive delivery_event (o : LoggingMiddleware) (logEntry : LogEntry)
    : Event -> Prop :=
  | de_request : delivery_event o logEntry (Request (request_of o logEntry))
  | de_delay ms : delivery_event o logEntry (Delay ms)
  | de_two m a b : delivery_event o logEntry (Console m [a; b])
  | de_auth :
      delivery_event o logEntry
        (Console console_error
           [ArgString "Authentication failed for logging API. Check your access token."]).

(** What the [catch] block of a turn adds after the request: the warning,
    the notice of a rejected credential, the wait before the next turn. *)
Definition attempt_warning (o : LoggingMiddleware) (attempt : Z)
    (error : JsError) : list Event :=
  if enableConsoleLog (config o) then
    [Console console_warn
       [ArgString ("Log API attempt " +:+ pretty attempt +:+ "/"
                     +:+ pretty (retryAttempts (config o)) +:+ " failed:");
        ArgError error]]
  else [].

Definition auth_notice (o : LoggingMiddleware) : list Event :=
  if enableConsoleLog (config o) then
    [Console console_error
       [ArgString "Authentication failed for logging API. Check your access token."]]
  else [].

Definition backoff (o : LoggingMiddleware) (attempt : Z) : list Event :=
  if attempt <? retryAttempts (config o) then
    [Delay (retryDelay (config o) * attempt)]
  else [].

(** The closing diagnostic of [sendLogToAPI]. *)
Definition failure_report (o : LoggingMiddleware) (logEntry : LogEntry)
    (lastError : option JsError) : list Event :=
  if enableConsoleLog (config o) then
    [Console console_error
       [ArgString "Failed to send log to API after all retries:";
        optional_message lastError];
     Console console_error [ArgString "Original log entry:"; ArgEntry logEntry]]
  else [].

(** A successful reply: status 200 and a truthy body. *)
Definition acknowledged (w : World) (v : JsValue) : Prop :=
  exists k r, collector w k = Fulfilled r /\ status r = 200 /\
              truthy (data r) = true /\ v = data r.

(** The console method the [switch] of [logToConsole] picks. *)
Definition switch_channel (lv : string) : ConsoleMethod :=
  if String.eqb lv "debug" then console_debug
  else if String.eqb lv "info" then console_info
  else if String.eqb lv "warn" then console_warn
  else if String.eqb lv "error" || String.eqb lv "fatal" then console_error
  else console_log.

(** The echo of [log], when it is enabled. *)
Definition echo (o : LoggingMiddleware) (timestamp : string)
    (logEntry : LogEntry) : list Event :=
  if enableConsoleLog (config o) then
    [Console (switch_channel (level logEntry))
       [ArgString (echo_line timestamp logEntry)]]
  else [].

(** A call resolves: it completes normally, with [null] or with the body
    of a successful reply. *)
Definition resolves (call : M (option JsValue)) (w : World) : Prop :=
  exists r w',
    call w = (Normal r, w') /\
    (r = None \/ exists v, r = Some v /\ acknowledged w v).

(** A world in which [o] has done nothing yet and the k-th request meets
    [net k]. *)
Definition world_of (o : LoggingMiddleware) (net : nat -> NetworkOutcome)
    : World :=
  {| this := o; effects := [];
     collector := fun k => axios_settle (net k);
     dispatched := 0; clock := "2025-01-01T00:00:00.000Z" |}.

(** The stored configuration, read back as a constructor argument. *)
Definition LoggerConfig_of (c : Config) : LoggerConfig :=
  {| cfg_apiUrl := apiUrl c;
     cfg_accessToken := accessToken c;
     cfg_defaultStack := defaultStack c;
     cfg_enableConsoleLog := Some (enableConsoleLog c);
     cfg_retryAttempts := Some (retryAttempts c);
     cfg_retryDelay := Some (retryDelay c) |}.

(** The request that leaves at position [k] is rejected, and not with an
    axios error of status 401 or 403. *)
Definition rejected_retryably (w : World) (k : nat) : Prop :=
  exists error, collector w k = Rejected error /\
                isAxiosError error && auth_status error = false.

(** A collector that answers the first request with 200 and an empty body
    and acknowledges the following ones. *)
Definition empty_then_ack (ack : JsValue) (k : nat) : NetworkOutcome :=
  match k with
  | O => HttpReply 200 (JsString "")
  | S _ => HttpReply 200 ack
  end.

(** A collector that answers every request with 200 and an empty body. *)
Definition always_empty (k : nat) : NetworkOutcome :=
  HttpReply 200 (JsString "").

(** A body that is not empty, in the words of the spec: the reply carried
    a body, so its data is neither [undefined] nor the empty string. *)
Definition non_empty_body (payload : JsValue) : bool :=
  match payload with
  | JsUndefined => false
  | JsString s => negb (String.eqb s "")
  | _ => true
  end.

(** ** The turns of the delivery loop, as a relation

    [turns logEntry attempt lastError w flow evs]: entered at [attempt]
    with [lastError] in the world [w], the loop is left with [flow] after
    the effects [evs]. *)
Inductive turns (logEntry : LogEntry)
    : Z -> option JsError -> World -> Flow -> list Event -> Prop :=
  | turns_over attempt lastError w :
      retryAttempts (config (this w)) < attempt ->
      turns logEntry attempt lastError w (Break lastError) []
  | turns_success attempt lastError w r :
      attempt <= retryAttempts (config (this w)) ->
      collector w (dispatched w) = Fulfilled r ->
      (status r =? 200) && truthy (data r) = true ->
      turns logEntry attempt lastError w (Return (data r))
        [Request (request_of (this w) logEntry)]
  | turns_unsuccessful attempt lastError w r flow evs :
      attempt <= retryAttempts (config (this w)) ->
      collector w (dispatched w) = Fulfilled r ->
      (status r =? 200) && truthy (data r) = false ->
      turns logEntry (attempt + 1) lastError
        (extend w [Request (request_of (this w) logEntry)] 1) flow evs ->
      turns logEntry attempt lastError w flow
        (Request (request_of (this w) logEntry) :: evs)
  | turns_abort attempt lastError w error :
      attempt <= retryAttempts (config (this w)) ->
      collector w (dispatched w) = Rejected error ->
      isAxiosError error && auth_status error = true ->
      turns logEntry attempt lastError w (Break (Some error))
        (Request (request_of (this w) logEntry)
           :: attempt_warning (this w) attempt error ++ auth_notice (this w))
  | turns_retry attempt lastError w error flow evs :
      attempt <= retryAttempts (config (this w)) ->
      collector w (dispatched w) = Rejected error ->
      isAxiosError error && auth_status error = false ->
      turns logEntry (attempt + 1) (Some error)
        (extend w (Request (request_of (this w) logEntry)
                     :: attempt_warning (this w) attempt error
                     ++ backoff (this w) attempt) 1) flow evs ->
      turns logEntry attempt lastError w flow
        ((Request (request_of (this w) logEntry)
            :: attempt_warning (this w) attempt error
            ++ backoff (this w) attempt) ++ evs).

(** The error of the last rejected request among the [n] requests that
    leave from position [from] on, or [init] when none of them is
    rejected. *)
Fixpoint last_rejection (settle : nat -> Settled AxiosResponse)
    (from n : nat) (init : option JsError) : option JsError :=
  match n with
  | O => init
  | S n' =>
      last_rejection settle (S from) n'
        (match settle from with
         | Rejected error => Some error
         | Fulfilled _ => init
         end)
  end.

(** An effect that does not reach the console. *)
Definition silent (ev : Event) : Prop :=
  match ev with
  | Console _ _ => False
  | Request _ | Delay _ => True
  end.

(** ** utils/logger.ts: the logger of the page

    The module keeps one logger in the variable [logger]: the middleware
    instance, or [fallbackLogger] when creating the instance threw.  The
    helpers call its methods and drop the promise, so the work of a call
    goes on after the helper has returned; a page state here holds the
    effects a call has had once that promise has settled, and one call is
    followed to its end before the next is looked at. *)

Definition LOGGING_CONFIG_apiUrl : string :=
  "http://20.244.56.144/evaluation-service".

Definition LOGGING_CONFIG_accessToken : string :=
  "eyJhbGciOiJIUzI1NiIsInR5cCI6IkpXVCJ9.eyJNYXBDbGJpbXJPbXMweDR" +:+
  "hU1pYWkcwbEliSzd0eFpKcTVqUzJkdHJIb2dpc2pKL3BQVnVQdk5GRnJTRXF" +:+
  "nRGoyNG5iNjNhK3JueWJHRFpiNXVySFJNQUxxYUg1K1lROVZTdmJxZVRxaUp" +:+
  "IVlhlemlMMWRqUGFOZjNOcG8xSndMcjBNNDBHSzVnMEJsd3VzY2QzQVJQS3V" +:+
  "GTjJ5SGJ5ZlZYODdGRXdxK21yYlFtS0hxanltaXhNZ1UxT0ZLMGJkSUVyS3F" +:+
  "YQ2hGNERmTEdLN3djNkkxTUpTcFl1UVVMdERwY0JNNGtQMlBsbTM1OGNBNXZ" +:+
  "BanpOSUdrbE1nOFZnd3lPbUJGOElJSUV4WkRzQlFBUWlXR0JTQWtoK2lPWTM" +:+
  "2c2g4YUEzVjh6NzQ1WDZJL0psUW8zOHQzRnlkVHR4UWhtY3NodEozZUVyZlg" +:+
  "weUEwTDVNTTJhOGY0IiwiaWF0IjoxNzQzNTc0MzQ0LCJleHAiOjE3NDM1OTQ" +:+
  "zNDR9.YApD98gq0IN_oWw7JMfmuUfK1m4hLTm7AIcLDcLAzVg".

(** A JavaScript number, as far as the helpers look at one: the text a
    template literal prints for it ([12.5], [1e+21], [NaN], ...) and whether
    a condition takes it as true, which it does unless it is [0] or
    [NaN]. *)
Record JsNum := {
  num_text : string;
  num_truthy : bool
}.

(** The values the helpers hand to the logger as [data]. *)
#[warnings="-register-all"]
Inductive PageValue :=
  | PvUndefined
  | PvString (s : string)
  | PvBool (b : bool)
  | PvNumber (n : JsNum)
  | PvObject (fields : list (string * PageValue)).

Definition pv_truthy (v : PageValue) : bool :=
  match v with
  | PvUndefined => false
  | PvString s => negb (String.eqb s "")
  | PvBool b => b
  | PvNumber n => num_truthy n
  | PvObject _ => true
  end.

Inductive Logger :=
  | Middleware (o : LoggingMiddleware)
  | fallbackLogger.

(** What the page shows of its logging: an effect of the middleware, a
    line [console.m(text, data)] of the fallback logger, and the warning of
    [initializeLogger]. *)
Inductive PageEvent :=
  | Shipped (ev : Event)
  | Printed (m : ConsoleMethod) (text : string) (data : PageValue)
  | Warned (text : string) (error : JsError).

(** The module state and its environment.  [page_create] is how the call
    [createFrontendLogger(apiUrl, accessToken)] completes: with the
    instance, or by throwing. *)
Record Page := {
  logger : option Logger;
  page_effects : list PageEvent;
  page_create : string -> string -> LoggingMiddleware + JsError;
  page_collector : nat -> Settled AxiosResponse;
  page_dispatched : nat;
  page_clock : string
}.

Definition set_logger (l : Logger) (p : Page) : Page :=
  {| logger := Some l; page_effects := page_effects p;
     page_create := page_create p; page_collector := page_collector p;
     page_dispatched := page_dispatched p; page_clock := page_clock p |}.

Definition page_emit (ev : PageEvent) (p : Page) : Page :=
  {| logger := logger p; page_effects := page_effects p ++ [ev];
     page_create := page_create p; page_collector := page_collector p;
     page_dispatched := page_dispatched p; page_clock := page_clock p |}.

(** The world a call from the page runs in. *)
Definition page_world (o : LoggingMiddleware) (p : Page) : World :=
  {| this := o; effects := []; collector := page_collector p;
     dispatched := page_dispatched p; clock := page_clock p |}.

(** A method [m] of the instance [o], called from the page: its effects
    are added to the page's, the promise is dropped, and [logger] goes on
    holding the instance. *)
Definition ship {A} (o : LoggingMiddleware) (m : M A) (p : Page) : Page :=
  let w' := (m (page_world o p)).2 in
  {| logger := Some (Middleware (this w'));
     page_effects := page_effects p ++ (Shipped <$> effects w');
     page_create := page_create p; page_collector := page_collector p;
     page_dispatched := dispatched w'; page_clock := page_clock p |}.

(** [data || ''] *)
Definition data_or_empty (data : PageValue) : PageValue :=
  if pv_truthy data then data else PvString "".

(** The methods the helpers call on the logger, with the arguments in the
    order of the call.  The instance takes them as
    [(packageName, message)] and has no third parameter; the fallback
    logger takes them as [(message, packageName, data)]. *)
Definition Logger_info (l : Logger) (a1 a2 : string) (a3 : PageValue)
    : Page -> Page :=
  match l with
  | Middleware o => ship o (info a1 a2)
  | fallbackLogger =>
      page_emit (Printed console_info ("[INFO] [" +:+ a2 +:+ "] " +:+ a1)
                   (data_or_empty a3))
  end.

Definition Logger_warn (l : Logger) (a1 a2 : string) (a3 : PageValue)
    : Page -> Page :=
  match l with
  | Middleware o => ship o (warn a1 a2)
  | fallbackLogger =>
      page_emit (Printed console_warn ("[WARN] [" +:+ a2 +:+ "] " +:+ a1)
                   (data_or_empty a3))
  end.

Definition Logger_error (l : Logger) (a1 a2 : string) (a3 : PageValue)
    : Page -> Page :=
  match l with
  | Middleware o => ship o (error a1 a2)
  | fallbackLogger =>
      page_emit (Printed console_error ("[ERROR] [" +:+ a2 +:+ "] " +:+ a1)
                   (data_or_empty a3))
  end.

Definition Logger_debug (l : Logger) (a1 a2 : string) (a3 : PageValue)
    : Page -> Page :=
  match l with
  | Middleware o => ship o (debug a1 a2)
  | fallbackLogger =>
      page_emit (Printed console_debug ("[DEBUG] [" +:+ a2 +:+ "] " +:+ a1)
                   (data_or_empty a3))
  end.

Definition initializeLogger (p : Page) : Logger * Page :=
  match logger p with
  | Some l => (l, p)
  | None =>
      match page_create p LOGGING_CONFIG_apiUrl LOGGING_CONFIG_accessToken with
      | inl o => (Middleware o, set_logger (Middleware o) p)
      | inr error =>
          (fallbackLogger,
           set_logger fallbackLogger
             (page_emit
                (Warned "Failed to initialize logging middleware, using fallback logger:"
                   error) p))
      end
  end.

Definition getLogger (p : Page) : Logger * Page :=
  match logger p with
  | None => initializeLogger p
  | Some l => (l, p)
  end.

(** An optional number in a condition: [undefined] is falsy. *)
Definition truthy_number (n : option JsNum) : bool :=
  match n with
  | Some n => num_truthy n
  | None => false
  end.

(** A number or [undefined] in a template literal. *)
Definition number_text (n : option JsNum) : string :=
  match n with
  | Some n => num_text n
  | None => "undefined"
  end.

(** A number or [undefined] as a property value. *)
Definition number_or_undefined (n : option JsNum) : PageValue :=
  match n with
  | Some n => PvNumber n
  | None => PvUndefined
  end.

Definition logPageLoad (pageName : string) (loadTime : option JsNum) (p : Page)
    : Page :=
  let message :=
    if truthy_number loadTime
    then pageName +:+ " page loaded in " +:+ number_text loadTime +:+ "ms"
    else pageName +:+ " page loaded" in
  let '(l, p1) := getLogger p in
  Logger_info l message "page" PvUndefined p1.

Definition logApiCall (endpoint method : string) (status : option JsNum)
    (p : Page) : Page :=
  let message :=
    if truthy_number status
    then "API " +:+ method +:+ " " +:+ endpoint +:+ " - Status: "
           +:+ number_text status
    else "API " +:+ method +:+ " " +:+ endpoint +:+ " initiated" in
  let '(l, p1) := getLogger p in
  Logger_info l message "api"
    (PvObject [("endpoint", PvString endpoint); ("method", PvString method);
               ("status", number_or_undefined status)]) p1.

Definition logUrlShortening (originalUrl shortCode : string) (p : Page)
    : Page :=
  let message :=
    "URL shortened successfully: " +:+ originalUrl +:+ " -> " +:+ shortCode in
  let '(l, p1) := getLogger p in
  Logger_info l message "api"
    (PvObject [("originalUrl", PvString originalUrl);
               ("shortCode", PvString shortCode)]) p1.

Definition logUrlClick (shortCode originalUrl : string) (p : Page) : Page :=
  let message :=
    "Short URL clicked: " +:+ shortCode +:+ " -> " +:+ originalUrl in
  let '(l, p1) := getLogger p in
  Logger_info l message "component"
    (PvObject [("shortCode", PvString shortCode);
               ("originalUrl", PvString originalUrl)]) p1.

(** [unit] is ['ms'] when the caller leaves it out. *)
Definition logPerformance (metric : string) (value : JsNum)
    (unit : option string) (p : Page) : Page :=
  let message :=
    "Performance metric: " +:+ metric +:+ " = " +:+ num_text value
      +:+ default "ms" unit in
  let '(l, p1) := getLogger p in
  Logger_info l "component" message PvUndefined p1.

Definition logAuthAction (action : string) (success : bool) (p : Page)
    : Page :=
  let message :=
    if success then "Authentication action successful: " +:+ action
    else "Authentication action failed: " +:+ action in
  let '(l, p1) := getLogger p in
  Logger_info l "auth" message PvUndefined p1.

Definition logStorageOperation (operation key : string) (success : bool)
    (p : Page) : Page :=
  let message :=
    if success
    then "Storage " +:+ operation +:+ " successful for key: " +:+ key
    else "Storage " +:+ operation +:+ " failed for key: " +:+ key in
  let '(l, p1) := getLogger p in
  Logger_debug l "utils" message PvUndefined p1.

Definition logConfigLoad (configName : string) (success : bool) (p : Page)
    : Page :=
  let message :=
    if success then "Configuration loaded successfully: " +:+ configName
    else "Failed to load configuration: " +:+ configName in
  let '(l, p1) := getLogger p in
  Logger_info l message "config"
    (PvObject [("configName", PvString configName);
               ("success", PvBool success)]) p1.

(** The effects a helper has added between the pages [p] and [p'], and
    the requests among them. *)
Definition page_emitted (p p' : Page) : list PageEvent :=
  drop (length (page_effects p)) (page_effects p').

Definition page_requests (evs : list PageEvent) : list HttpRequest :=
  omap (fun ev => match ev with
                  | Shipped (Request r) => Some r
                  | _ => None
                  end) evs.

(** A page that has logged nothing yet, on which creating the instance
    succeeds and the k-th request meets [net k]. *)
Definition fresh_page (net : nat -> NetworkOutcome) : Page :=
  {| logger := None; page_effects := [];
     page_create := fun url token => inl (createFrontendLogger url token);
     page_collector := fun k => axios_settle (net k);
     page_dispatched := 0; page_clock := "2025-01-01T00:00:00.000Z" |}.

(** The eight helpers above, each with its arguments: those of the twelve
    helpers of utils/logger.ts that build their message from strings,
    numbers and flags alone.  The other four are not in this list and have
    no definition here: [logUserAction] and [logStateChange] go through
    [JSON.stringify], [logError] reads an [Error] and [logFormValidation]
    an array. *)
Definition plain_helpers (text1 text2 : string) (number : option JsNum)
    (value : JsNum) (unit : option string) (flag : bool)
    : list (Page -> Page) :=
  [logPageLoad text1 number; logApiCall text1 text2 number;
   logUrlShortening text1 text2; logUrlClick text1 text2;
   logPerformance text1 value unit; logAuthAction text1 flag;
   logStorageOperation text1 text2 flag; logConfigLoad text1 flag].

(** ** utils/urlHelpers.ts

    Here a string is a sequence of code units below 256, and a date is
    its time value in milliseconds. *)

(** The white space and line terminators of [trim], below 256. *)
Definition is_whitespace (c : ascii) : bool :=
  let n := nat_of_ascii c in
  ((n =? 9) || (n =? 10) || (n =? 11) || (n =? 12) || (n =? 13)
   || (n =? 32) || (n =? 160))%nat.

Fixpoint trimStart (s : string) : string :=
  match s with
  | EmptyString => EmptyString
  | String c rest => if is_whitespace c then trimStart rest else s
  end.

Fixpoint trimEnd (s : string) : string :=
  match s with
  | EmptyString => EmptyString
  | String c rest =>
      match trimEnd rest with
      | EmptyString =>
          if is_whitespace c then EmptyString else String c EmptyString
      | rest' => String c rest'
      end
  end.

Definition trim (s : string) : string := trimEnd (trimStart s).

(** [String.prototype.toLowerCase], below 256: the letters A-Z and the
    Latin-1 capitals. *)
Definition lower_unit (c : ascii) : ascii :=
  let n := nat_of_ascii c in
  if (((65 <=? n) && (n <=? 90))
      || ((192 <=? n) && (n <=? 222) && negb (n =? 215)))%nat
  then ascii_of_nat (n + 32) else c.

Fixpoint toLowerCase (s : string) : string :=
  match s with
  | EmptyString => EmptyString
  | String c rest => String (lower_unit c) (toLowerCase rest)
  end.

(** [url.substring(0, end)] *)
Definition substring_to (url : string) (finish : Z) : string :=
  String.substring 0 (Z.to_nat finish) url.

(** [maxLength] is 50 when the caller leaves it out. *)
Definition formatUrlForDisplay (url : string) (maxLength : option Z)
    : string :=
  let maxLength := default 50 maxLength in
  if Z.of_nat (String.length url) <=? maxLength then url
  else substring_to url (maxLength - 3) +:+ "...".

(** [new Date() > new Date(expiresAt)], read at the time [now]. *)
Definition isUrlExpired (now expiresAt : Z) : bool := now >? expiresAt.

(** [formatTimeRemaining(expiresAt)], read at the time [now]. *)
Definition formatTimeRemaining (now expiresAt : Z) : string :=
  let diffMs := expiresAt - now in
  if diffMs <=? 0 then "Expired"
  else
    let diffMinutes := diffMs / (1000 * 60) in
    let diffHours := diffMinutes / 60 in
    let diffDays := diffHours / 24 in
    if diffDays >? 0 then
      pretty diffDays +:+ " day" +:+ (if negb (diffDays =? 1) then "s" else "")
        +:+ " remaining"
    else if diffHours >? 0 then
      pretty diffHours +:+ " hour"
        +:+ (if negb (diffHours =? 1) then "s" else "") +:+ " remaining"
    else if diffMinutes >? 0 then
      pretty diffMinutes +:+ " minute"
        +:+ (if negb (diffMinutes =? 1) then "s" else "") +:+ " remaining"
    else "Less than 1 minute remaining".

(** A character of the class [[a-zA-Z0-9-_]]. *)
Definition shortcode_char (c : ascii) : bool :=
  let n := nat_of_ascii c in
  (((97 <=? n) && (n <=? 122)) || ((65 <=? n) && (n <=? 90))
   || ((48 <=? n) && (n <=? 57)) || (n =? 45) || (n =? 95))%nat.

Fixpoint all_units (f : ascii -> bool) (s : string) : bool :=
  match s with
  | EmptyString => true
  | String c rest => f c && all_units f rest
  end.

(** [/^[a-zA-Z0-9-_]+$/.test(s)] *)
Definition shortcode_pattern (s : string) : bool :=
  negb (String.eqb s "") && all_units shortcode_char s.

Definition reservedWords : list string :=
  ["api"; "admin"; "www"; "app"; "shortener"; "statistics"; "stats";
   "analytics"].

(** [list.includes(s)] *)
Definition includes (l : list string) (s : string) : bool :=
  existsb (String.eqb s) l.

Record ShortcodeValidation := {
  isValid : bool;
  errors : list string
}.

Definition validateShortcode (shortcode : string) : ShortcodeValidation :=
  if String.eqb (trim shortcode) "" then {| isValid := true; errors := [] |}
  else
    let trimmed := trim shortcode in
    let errors0 : list string := [] in
    let errors1 :=
      if (String.length trimmed <? 3)%nat
      then errors0 ++ ["Shortcode must be at least 3 characters long"]
      else errors0 in
    let errors2 :=
      if (20 <? String.length trimmed)%nat
      then errors1 ++ ["Shortcode cannot be longer than 20 characters"]
      else errors1 in
    let errors3 :=
      if negb (shortcode_pattern trimmed)
      then errors2 ++
           ["Shortcode can only contain letters, numbers, hyphens, and underscores"]
      else errors2 in
    let errors4 :=
      if includes reservedWords (toLowerCase trimmed)
      then errors3 ++ ["This shortcode is reserved and cannot be used"]
      else errors3 in
    {| isValid := (length errors4 =? 0)%nat; errors := errors4 |}.

(** ASCII case folding, as the [i] flag compares the letters of a pattern. *)
Definition fold_unit (c : ascii) : ascii :=
  let n := nat_of_ascii c in
  if ((65 <=? n) && (n <=? 90))%nat then ascii_of_nat (n + 32) else c.

Fixpoint fold_case (s : string) : string :=
  match s with
  | EmptyString => EmptyString
  | String c rest => String (fold_unit c) (fold_case rest)
  end.

(** [/^https?:\/\//i.test(s)] *)
Definition has_http_scheme (s : string) : bool :=
  String.prefix "http://" (fold_case s)
  || String.prefix "https://" (fold_case s).

Definition normalizeUrl (url : string) : string :=
  let trimmed := trim url in
  if String.eqb trimmed "" then ""
  else if negb (has_http_scheme trimmed) then "https://" +:+ trimmed
  else trimmed.

(** A lower-case letter a-z. *)
Definition lower_letter (c : ascii) : bool :=
  let n := nat_of_ascii c in ((97 <=? n) && (n <=? 122))%nat.

(** A string that does not begin with white space. *)
Definition starts_clean (s : string) : bool :=
  match s with
  | EmptyString => true
  | String c _ => negb (is_whitespace c)
  end.

(** ** Basic facts on worlds *)

Lemma extend_nil w : extend w [] 0 = w.
Proof.
  destruct w; unfold extend; simpl.
  by rewrite app_nil_r, Nat.add_0_r.
Qed.

Lemma extend_extend w evs1 n1 evs2 n2 :
  extend (extend w evs1 n1) evs2 n2 = extend w (evs1 ++ evs2) (n1 + n2).
Proof.
  unfold extend; simpl. by rewrite app_assoc, Nat.add_assoc.
Qed.

Lemma emit_extend w ev : emit ev w = extend w [ev] 0.
Proof. unfold emit, extend. by rewrite Nat.add_0_r. Qed.

Lemma emitted_extend w evs n : emitted w (extend w evs n) = evs.
Proof. unfold emitted; simpl. by rewrite drop_app_length. Qed.

Lemma requests_app evs1 evs2 :
  requests (evs1 ++ evs2) = requests evs1 ++ requests evs2.
Proof. apply omap_app. Qed.

Lemma waits_app evs1 evs2 : waits (evs1 ++ evs2) = waits evs1 ++ waits evs2.
Proof. apply omap_app. Qed.

(** ** One turn of the loop, by the way the request settles *)

Section Attempt.
Variables (logEntry : LogEntry) (attempt : Z) (lastError : option JsError).
Variable w : World.

Let o := this w.
Let req := Request (request_of o logEntry).

Lemma attempt_body_fulfilled r :
  collector w (dispatched w) = Fulfilled r ->
  attempt_body logEntry attempt lastError w =
    (Normal (if (status r =? 200) && truthy (data r)
             then Return (data r) else Next lastError),
     extend w [req] 1).
Proof.
  intros H. unfold attempt_body, try_catch, bind, post. rewrite H. simpl.
  unfold extend, req, request_of, o. rewrite Nat.add_1_r.
  by destruct ((status r =? 200) && truthy (data r)).
Qed.

Lemma attempt_body_abort error :
  collector w (dispatched w) = Rejected error ->
  isAxiosError error && auth_status error = true ->
  attempt_body logEntry attempt lastError w =
    (Normal (Break (Some error)),
     extend w (req :: attempt_warning o attempt error ++ auth_notice o) 1).
Proof.
  intros H Hauth.
  unfold attempt_body, try_catch, bind, post. rewrite H. simpl.
  rewrite Hauth. unfold attempt_warning, auth_notice, o, req, request_of.
  destruct (enableConsoleLog (config (this w))); simpl;
    unfold extend, emit; simpl; rewrite Nat.add_1_r;
    by rewrite <- ?app_assoc.
Qed.

Lemma attempt_body_retry error :
  collector w (dispatched w) = Rejected error ->
  isAxiosError error && auth_status error = false ->
  attempt_body logEntry attempt lastError w =
    (Normal (Next (Some error)),
     extend w (req :: attempt_warning o attempt error ++ backoff o attempt) 1).
Proof.
  intros H Hauth.
  unfold attempt_body, try_catch, bind, post. rewrite H. simpl.
  rewrite Hauth. unfold attempt_warning, backoff, o, req, request_of.
  destruct (enableConsoleLog (config (this w))); simpl;
    destruct (attempt <? retryAttempts (config (this w))); simpl;
    unfold extend, emit; simpl; rewrite Nat.add_1_r;
    by rewrite <- ?app_assoc.
Qed.

End Attempt.

(** ** The loop *)

Lemma for_attempts_eq fuel logEntry attempt lastError w :
  for_attempts fuel logEntry attempt lastError w =
    if attempt <=? retryAttempts (config (this w)) then
      match fuel with
      | O => (OutOfFuel, w)
      | S fuel' =>
          match attempt_body logEntry attempt lastError w with
          | (Normal (Next lastError'), w') =>
              for_attempts fuel' logEntry (attempt + 1) lastError' w'
          | (Normal (Break lastError'), w') => (Normal (Break lastError'), w')
          | (Normal (Return v), w') => (Normal (Return v), w')
          | (Throw x, w') => (Throw x, w')
          | (OutOfFuel, w') => (OutOfFuel, w')
          end
      end
    else (Normal (Break lastError), w).
Proof.
  destruct fuel; simpl; unfold bind, get_this, out_of_fuel, ret;
    destruct (attempt <=? retryAttempts (config (this w))); try reflexivity.
  destruct (attempt_body logEntry attempt lastError w) as [[[]| |] w'];
    reflexivity.
Qed.

Lemma for_attempts_past fuel logEntry attempt lastError w :
  retryAttempts (config (this w)) < attempt ->
  for_attempts fuel logEntry attempt lastError w = (Normal (Break lastError), w).
Proof.
  intros H. rewrite for_attempts_eq.
  by rewrite (proj2 (Z.leb_gt _ _) H).
Qed.

(** With fuel for the turns that are left, the loop ends normally; it only
    adds delivery events, one request per turn, and what it returns is the
    body of a successful reply. *)
Lemma for_attempts_normal logEntry fuel :
  forall attempt lastError w,
    retryAttempts (config (this w)) - attempt + 1 <= Z.of_nat fuel ->
    exists flow evs,
      for_attempts fuel logEntry attempt lastError w =
        (Normal flow, extend w evs (length (requests evs))) /\
      Forall (delivery_event (this w) logEntry) evs /\
      (forall v, flow = Return v -> acknowledged w v).
Proof.
  induction fuel as [|fuel IH]; intros attempt lastError w Hfuel.
  - rewrite for_attempts_past by lia.
    exists (Break lastError), []. rewrite extend_nil.
    split_and!; [done | constructor | discriminate].
  - rewrite for_attempts_eq.
    destruct (Z.leb_spec attempt (retryAttempts (config (this w)))) as [Hle|Hgt].
    2:{ exists (Break lastError), []. rewrite extend_nil.
        split_and!; [done | constructor | discriminate]. }
    destruct (collector w (dispatched w)) as [r|error] eqn:Hsettle.
    + rewrite (attempt_body_fulfilled _ _ _ _ _ Hsettle).
      destruct ((status r =? 200) && truthy (data r)) eqn:Hok.
      * exists (Return (data r)), [Request (request_of (this w) logEntry)].
        split_and!; [done | repeat constructor |].
        intros v [= <-]. apply andb_true_iff in Hok as [Hs Ht].
        exists (dispatched w), r. split_and!; [done | lia | done | done].
      * destruct (IH (attempt + 1) lastError
                    (extend w [Request (request_of (this w) logEntry)] 1))
          as (flow & evs & Hrun & Hevs & Hack); [simpl; lia|].
        exists flow, (Request (request_of (this w) logEntry) :: evs).
        rewrite Hrun, extend_extend. split_and!; [done | | done].
        constructor; [constructor | done].
    + destruct (isAxiosError error && auth_status error) eqn:Hauth.
      * rewrite (attempt_body_abort _ _ _ _ _ Hsettle Hauth).
        eexists (Break (Some error)), _. split_and!; [| | discriminate].
        -- f_equal. f_equal.
           unfold attempt_warning, auth_notice.
           by destruct (enableConsoleLog (config (this w))).
        -- constructor; [constructor|].
           unfold attempt_warning, auth_notice.
           destruct (enableConsoleLog (config (this w)));
             repeat constructor.
      * rewrite (attempt_body_retry _ _ _ _ _ Hsettle Hauth).
        set (evs1 := Request (request_of (this w) logEntry)
                       :: attempt_warning (this w) attempt error
                       ++ backoff (this w) attempt).
        destruct (IH (attempt + 1) (Some error) (extend w evs1 1))
          as (flow & evs & Hrun & Hevs & Hack); [simpl; lia|].
        exists flow, (evs1 ++ evs).
        rewrite Hrun, extend_extend. split_and!; [| | done].
        -- f_equal. f_equal. rewrite requests_app, length_app. f_equal.
           unfold evs1, attempt_warning, backoff.
           by destruct (enableConsoleLog (config (this w))),
                (attempt <? retryAttempts (config (this w))).
        -- apply Forall_app. split; [|done].
           unfold evs1, attempt_warning, backoff.
           destruct (enableConsoleLog (config (this w))),
             (attempt <? retryAttempts (config (this w)));
             repeat constructor.
Qed.

Lemma logToConsole_eq logEntry w :
  logToConsole logEntry w =
    (Normal tt,
     emit (Console (switch_channel (level logEntry))
             [ArgString (echo_line (clock w) logEntry)]) w).
Proof.
  unfold logToConsole, switch_channel, bind, Date_toISOString, console.
  simpl.
  destruct (String.eqb (level logEntry) "debug"); [done|].
  destruct (String.eqb (level logEntry) "info"); [done|].
  destruct (String.eqb (level logEntry) "warn"); [done|].
  by destruct (String.eqb (level logEntry) "error"
               || String.eqb (level logEntry) "fatal").
Qed.

Lemma sendLogToAPI_eq logEntry w :
  sendLogToAPI logEntry w =
    match for_attempts (Z.to_nat (retryAttempts (config (this w))))
            logEntry 1 None w with
    | (Normal (Return v), w') => (Normal (Some v), w')
    | (Normal (Next lastError), w') | (Normal (Break lastError), w') =>
        (Normal None, extend w' (failure_report (this w') logEntry lastError) 0)
    | (Throw x, w') => (Throw x, w')
    | (OutOfFuel, w') => (OutOfFuel, w')
    end.
Proof.
  unfold sendLogToAPI, bind, get_this at 1.
  destruct (for_attempts _ logEntry 1 None w) as [[[le|le|v]| |] w']; try done;
    unfold get_this, failure_report, when, console, ret, bind;
    destruct (enableConsoleLog (config (this w'))); simpl;
    rewrite ?extend_nil; try done;
    unfold emit, extend; simpl; by rewrite Nat.add_0_r, <- app_assoc.
Qed.

Lemma log_eq stack level packageName message w :
  let logEntry := {| stack := stack; level := level; package := packageName;
                     message := message |} in
  log stack level packageName message w =
    sendLogToAPI logEntry (extend w (echo (this w) (clock w) logEntry) 0).
Proof.
  intros logEntry. unfold log, bind, get_this at 1, when, echo.
  fold logEntry.
  destruct (enableConsoleLog (config (this w))).
  - by rewrite logToConsole_eq, emit_extend.
  - unfold ret. by rewrite extend_nil.
Qed.

Lemma sendLogToAPI_normal logEntry w :
  exists r evs,
    sendLogToAPI logEntry w =
      (Normal r, extend w evs (length (requests evs))) /\
    Forall (delivery_event (this w) logEntry) evs /\
    (r = None \/ exists v, r = Some v /\ acknowledged w v).
Proof.
  rewrite sendLogToAPI_eq.
  destruct (for_attempts_normal logEntry
              (Z.to_nat (retryAttempts (config (this w)))) 1 None w)
    as (flow & evs & Hrun & Hevs & Hack); [lia|].
  rewrite Hrun.
  assert (Hreport : forall le,
    Forall (delivery_event (this w) logEntry)
      (evs ++ failure_report (this w) logEntry le) /\
    length (requests (evs ++ failure_report (this w) logEntry le))
      = length (requests evs)).
  { intros le. unfold failure_report.
    destruct (enableConsoleLog (config (this w))).
    - split; [apply Forall_app; split; [done | repeat constructor]|].
      by rewrite requests_app, length_app, Nat.add_0_r.
    - by rewrite app_nil_r. }
  destruct flow as [le|le|v].
  - exists None, (evs ++ failure_report (this w) logEntry le).
    destruct (Hreport le) as [HF Hlen].
    rewrite extend_extend, Hlen, Nat.add_0_r. simpl. auto.
  - exists None, (evs ++ failure_report (this w) logEntry le).
    destruct (Hreport le) as [HF Hlen].
    rewrite extend_extend, Hlen, Nat.add_0_r. simpl. auto.
  - exists (Some v), evs. split_and!; [done | done |].
    right. exists v. split; [done | by apply Hack].
Qed.

Lemma severity_eq w packageName message :
  debug packageName message w
    = log (defaultStack (config (this w))) "debug" packageName message w /\
  info packageName message w
    = log (defaultStack (config (this w))) "info" packageName message w /\
  warn packageName message w
    = log (defaultStack (config (this w))) "warn" packageName message w /\
  error packageName message w
    = log (defaultStack (config (this w))) "error" packageName message w /\
  fatal packageName message w
    = log (defaultStack (config (this w))) "fatal" packageName message w.
Proof. by split_and!. Qed.

Lemma log_resolves w stack level packageName message :
  resolves (log stack level packageName message) w.
Proof.
  unfold resolves. rewrite log_eq.
  set (logEntry := {| stack := stack |}).
  set (w1 := extend w _ 0).
  destruct (sendLogToAPI_normal logEntry w1) as (r & evs & Hrun & _ & Hr).
  exists r, (extend w1 evs (length (requests evs))). split; [done|].
  destruct Hr as [->|(v & -> & k & resp & Hk)]; [by left|].
  right. exists v. split; [done|]. by exists k, resp.
Qed.

(** C1. Whatever the instance, the arguments and the way the requests
    settle (the world [w] fixes all of them, for every request the call may
    dispatch), [log] and the five severity methods complete normally: the
    promise resolves, to [null] or to the body of a reply with status 200
    and a truthy body, and is never rejected. *)
Theorem log_never_rejects w stack level packageName message :
  resolves (log stack level packageName message) w /\
  resolves (debug packageName message) w /\
  resolves (info packageName message) w /\
  resolves (warn packageName message) w /\
  resolves (error packageName message) w /\
  resolves (fatal packageName message) w.
Proof.
  destruct (severity_eq w packageName message) as (Hd & Hi & Hw & He & Hf).
  split_and!; [apply log_resolves | | | | |];
    unfold resolves;
    rewrite ?Hd, ?Hi, ?Hw, ?He, ?Hf; apply log_resolves.
Qed.

(** ** What a call to [log] does, in one statement *)

Lemma log_run w stack level packageName message :
  let logEntry := {| stack := stack; level := level; package := packageName;
                     message := message |} in
  exists r evs,
    log stack level packageName message w =
      (Normal r,
       extend w (echo (this w) (clock w) logEntry ++ evs)
         (length (requests evs))) /\
    Forall (delivery_event (this w) logEntry) evs /\
    (r = None \/ exists v, r = Some v /\ acknowledged w v).
Proof.
  intros logEntry. rewrite log_eq. fold logEntry.
  set (w1 := extend w _ 0).
  destruct (sendLogToAPI_normal logEntry w1) as (r & evs & Hrun & Hevs & Hr).
  exists r, evs. rewrite Hrun. unfold w1. rewrite extend_extend.
  split_and!; [done | done |].
  destruct Hr as [->|(v & -> & k & resp & Hk)]; [by left|].
  right. exists v. split; [done|]. by exists k, resp.
Qed.

Lemma requests_delivery o logEntry evs q :
  Forall (delivery_event o logEntry) evs ->
  q ∈ requests evs -> q = request_of o logEntry.
Proof.
  intros Hevs Hq. unfold requests in Hq.
  apply list_elem_of_omap in Hq as (ev & Hin & Hev).
  rewrite Forall_forall in Hevs. specialize (Hevs ev Hin).
  destruct Hevs; simpl in Hev; congruence.
Qed.

Lemma requests_echo o timestamp logEntry :
  requests (echo o timestamp logEntry) = [].
Proof. unfold echo. by destruct (enableConsoleLog (config o)). Qed.

Lemma log_requests w stack level packageName message r w' q :
  log stack level packageName message w = (r, w') ->
  q ∈ requests (emitted w w') ->
  q = request_of (this w)
        {| stack := stack; level := level; package := packageName;
           message := message |}.
Proof.
  intros Hrun Hq.
  destruct (log_run w stack level packageName message)
    as (r0 & evs & Hrun0 & Hevs & _).
  rewrite Hrun0 in Hrun. injection Hrun as _ <-.
  rewrite emitted_extend, requests_app, requests_echo in Hq.
  by eapply requests_delivery.
Qed.

Lemma log_frame w stack level packageName message r w' :
  log stack level packageName message w = (r, w') ->
  this w' = this w /\ collector w' = collector w /\ clock w' = clock w /\
  effects w' = effects w ++ emitted w w' /\
  dispatched w' = (dispatched w + length (requests (emitted w w')))%nat.
Proof.
  intros Hrun.
  destruct (log_run w stack level packageName message)
    as (r0 & evs & Hrun0 & Hevs & _).
  rewrite Hrun0 in Hrun. injection Hrun as _ <-.
  rewrite emitted_extend, requests_app, requests_echo. by simpl.
Qed.

(** C8. Each severity method is [log] applied to the configured default
    stack and to the method's own level.  Every request a severity method
    dispatches therefore carries the default stack, while a request
    dispatched by [log] carries the stack [log] was given. *)
Theorem severity_methods_delegate w packageName message :
  (debug packageName message w
     = log (defaultStack (config (this w))) "debug" packageName message w /\
   info packageName message w
     = log (defaultStack (config (this w))) "info" packageName message w /\
   warn packageName message w
     = log (defaultStack (config (this w))) "warn" packageName message w /\
   error packageName message w
     = log (defaultStack (config (this w))) "error" packageName message w /\
   fatal packageName message w
     = log (defaultStack (config (this w))) "fatal" packageName message w) /\
  (forall call r w' q,
     call ∈ [debug packageName message; info packageName message;
             warn packageName message; error packageName message;
             fatal packageName message] ->
     call w = (r, w') ->
     q ∈ requests (emitted w w') ->
     stack (body q) = defaultStack (config (this w))) /\
  (forall stack' level r w' q,
     log stack' level packageName message w = (r, w') ->
     q ∈ requests (emitted w w') ->
     stack (body q) = stack').
Proof.
  split; [apply severity_eq|]. split.
  - intros call r w' q Hcall Hrun Hq.
    destruct (severity_eq w packageName message) as (Hd & Hi & Hw & He & Hf).
    repeat (apply elem_of_cons in Hcall as [->|Hcall]);
      [| | | | | by apply elem_of_nil in Hcall];
      rewrite ?Hd, ?Hi, ?Hw, ?He, ?Hf in Hrun;
      by rewrite (log_requests _ _ _ _ _ _ _ _ Hrun Hq).
  - intros stack' level r w' q Hrun Hq.
    by rewrite (log_requests _ _ _ _ _ _ _ _ Hrun Hq).
Qed.

Lemma severity_methods_delegate_witness :
  let w := world_of (createBackendLogger "http://collector" "t0")
             (fun _ => TimedOut) in
  let w' := snd (warn "db" "slow query" w) in
  length (requests (emitted w w')) = 5%nat /\
  Forall (fun q => stack (body q) = "backend") (requests (emitted w w')).
Proof.
  intros w w'. split; [reflexivity|].
  apply Forall_forall. intros q Hq.
  destruct (severity_methods_delegate w "db" "slow query") as (_ & Hsev & _).
  apply (Hsev (warn "db" "slow query") (fst (warn "db" "slow query" w)) w' q);
    [do 2 apply list_elem_of_further; apply list_elem_of_here
    | apply surjective_pairing | exact Hq].
Defined.

Lemma echo_not_delivery o logEntry m timestamp e :
  ~ delivery_event o logEntry (Console m [ArgString (echo_line timestamp e)]).
Proof. intros H. inversion H. Qed.

(** C6. With the console echo enabled, a call to [log] first writes one
    line, [[timestamp] [STACK] [LEVEL] [package] message] with the stack
    and the level in upper case, through the console method of the level
    (debug, info, warn, and error for both error and fatal); everything
    else the call does, every request included, comes after it, and the
    line is not written again. *)
Theorem console_echo_first w stack level packageName message :
  enableConsoleLog (config (this w)) = true ->
  let line :=
    Console (switch_channel level)
      [ArgString ("[" +:+ clock w +:+ "] [" +:+ toUpperCase stack +:+ "] ["
                    +:+ toUpperCase level +:+ "] [" +:+ packageName +:+ "] "
                    +:+ message)] in
  (exists r w' rest,
     log stack level packageName message w = (Normal r, w') /\
     emitted w w' = line :: rest /\
     (line ∉ rest) /\
     requests (emitted w w') = requests rest) /\
  (switch_channel "debug" = console_debug /\
   switch_channel "info" = console_info /\
   switch_channel "warn" = console_warn /\
   switch_channel "error" = console_error /\
   switch_channel "fatal" = console_error) /\
  map toUpperCase LogLevel = ["DEBUG"; "INFO"; "WARN"; "ERROR"; "FATAL"] /\
  map toUpperCase LogStack = ["BACKEND"; "FRONTEND"].
Proof.
  intros Hecho line. split; [|by split_and!].
  destruct (log_run w stack level packageName message)
    as (r & evs & Hrun & Hevs & _).
  eexists r, _, evs. split; [exact Hrun|].
  rewrite emitted_extend. unfold echo. rewrite Hecho. simpl.
  split_and!; [done | | done].
  intros Hin. rewrite Forall_forall in Hevs.
  exact (echo_not_delivery _ _ _ (clock w)
           {| stack := stack; level := level; package := packageName;
              message := message |} (Hevs _ Hin)).
Qed.

Lemma console_echo_first_witness :
  let w := world_of (createFrontendLogger "http://collector" "t0")
             (fun _ => TimedOut) in
  exists r w' rest,
    log "frontend" "warn" "api" "slow" w = (Normal r, w') /\
    emitted w w' =
      Console console_warn
        [ArgString "[2025-01-01T00:00:00.000Z] [FRONTEND] [WARN] [api] slow"]
      :: rest.
Proof.
  intros w.
  destruct (console_echo_first w "frontend" "warn" "api" "slow")
    as [(r & w' & rest & Hrun & Hem & _) _]; [reflexivity|].
  exists r, w', rest. split; [exact Hrun | exact Hem].
Defined.

(** C10. The constructor stores whatever [retryAttempts] it is given.
    When the stored value is zero or negative, [log] dispatches no request
    and resolves to [null]; with the console echo enabled it still writes
    the echo line and then the closing diagnostic (whose error message is
    [undefined], as no attempt was made), and with the echo disabled it
    writes nothing. *)
Theorem no_attempt_unless_positive w stack level packageName message :
  retryAttempts (config (this w)) <= 0 ->
  let logEntry := {| stack := stack; level := level; package := packageName;
                     message := message |} in
  (forall c n, cfg_retryAttempts c = Some n ->
               retryAttempts (config (constructor c)) = n) /\
  exists w',
    log stack level packageName message w = (Normal None, w') /\
    requests (emitted w w') = [] /\
    dispatched w' = dispatched w /\
    (enableConsoleLog (config (this w)) = true ->
     emitted w w' =
       [Console (switch_channel level) [ArgString (echo_line (clock w) logEntry)];
        Console console_error
          [ArgString "Failed to send log to API after all retries:";
           ArgUndefined];
        Console console_error
          [ArgString "Original log entry:"; ArgEntry logEntry]]) /\
    (enableConsoleLog (config (this w)) = false -> emitted w w' = []).
Proof.
  intros Hmax logEntry. split.
  { intros c n Hn. simpl. by rewrite Hn. }
  rewrite log_eq. fold logEntry. rewrite sendLogToAPI_eq.
  rewrite for_attempts_past by (simpl; lia).
  rewrite extend_extend. eexists. split; [reflexivity|].
  rewrite emitted_extend. simpl.
  unfold echo, failure_report. simpl.
  destruct (enableConsoleLog (config (this w))); simpl.
  - split_and!; [done | lia | done | discriminate].
  - split_and!; [done | lia | discriminate | done].
Qed.

Lemma no_attempt_unless_positive_witness :
  let o := constructor
             {| cfg_apiUrl := "http://collector"; cfg_accessToken := "t0";
                cfg_defaultStack := "frontend";
                cfg_enableConsoleLog := None;
                cfg_retryAttempts := Some 0; cfg_retryDelay := None |} in
  let w := world_of o (fun _ => HttpReply 200 (JsString "ok")) in
  exists w',
    log "frontend" "info" "page" "loaded" w = (Normal None, w') /\
    requests (emitted w w') = [].
Proof.
  intros o w.
  destruct (no_attempt_unless_positive w "frontend" "info" "page" "loaded")
    as [_ (w' & Hrun & Hreq & _)]; [simpl; lia|].
  exists w'. split; [exact Hrun | exact Hreq].
Defined.

(** ** The four ways a turn can go *)

Section Turn.
Variables (logEntry : LogEntry) (fuel : nat) (attempt : Z).
Variables (lastError : option JsError) (w : World).
Hypothesis Hturn : attempt <= retryAttempts (config (this w)).

Let o := this w.
Let req := Request (request_of o logEntry).

Lemma for_attempts_success r :
  collector w (dispatched w) = Fulfilled r ->
  (status r =? 200) && truthy (data r) = true ->
  for_attempts (S fuel) logEntry attempt lastError w =
    (Normal (Return (data r)), extend w [req] 1).
Proof.
  intros Hsettle Hok. rewrite for_attempts_eq.
  rewrite (proj2 (Z.leb_le _ _) Hturn).
  by rewrite (attempt_body_fulfilled _ _ _ _ _ Hsettle), Hok.
Qed.

Lemma for_attempts_unsuccessful r :
  collector w (dispatched w) = Fulfilled r ->
  (status r =? 200) && truthy (data r) = false ->
  for_attempts (S fuel) logEntry attempt lastError w =
    for_attempts fuel logEntry (attempt + 1) lastError (extend w [req] 1).
Proof.
  intros Hsettle Hok. rewrite for_attempts_eq.
  rewrite (proj2 (Z.leb_le _ _) Hturn).
  by rewrite (attempt_body_fulfilled _ _ _ _ _ Hsettle), Hok.
Qed.

Lemma for_attempts_abort error :
  collector w (dispatched w) = Rejected error ->
  isAxiosError error && auth_status error = true ->
  for_attempts (S fuel) logEntry attempt lastError w =
    (Normal (Break (Some error)),
     extend w (req :: attempt_warning o attempt error ++ auth_notice o) 1).
Proof.
  intros Hsettle Hauth. rewrite for_attempts_eq.
  rewrite (proj2 (Z.leb_le _ _) Hturn).
  by rewrite (attempt_body_abort _ _ _ _ _ Hsettle Hauth).
Qed.

Lemma for_attempts_retry error :
  collector w (dispatched w) = Rejected error ->
  isAxiosError error && auth_status error = false ->
  for_attempts (S fuel) logEntry attempt lastError w =
    for_attempts fuel logEntry (attempt + 1) (Some error)
      (extend w (req :: attempt_warning o attempt error ++ backoff o attempt) 1).
Proof.
  intros Hsettle Hauth. rewrite for_attempts_eq.
  rewrite (proj2 (Z.leb_le _ _) Hturn).
  by rewrite (attempt_body_retry _ _ _ _ _ Hsettle Hauth).
Qed.

End Turn.

(** ** Counting requests and waits *)

Lemma requests_attempt_warning o attempt error :
  requests (attempt_warning o attempt error) = [].
Proof. unfold attempt_warning. by destruct (enableConsoleLog (config o)). Qed.

Lemma waits_attempt_warning o attempt error :
  waits (attempt_warning o attempt error) = [].
Proof. unfold attempt_warning. by destruct (enableConsoleLog (config o)). Qed.

Lemma requests_auth_notice o : requests (auth_notice o) = [].
Proof. unfold auth_notice. by destruct (enableConsoleLog (config o)). Qed.

Lemma waits_auth_notice o : waits (auth_notice o) = [].
Proof. unfold auth_notice. by destruct (enableConsoleLog (config o)). Qed.

Lemma requests_backoff o attempt : requests (backoff o attempt) = [].
Proof. unfold backoff. by destruct (attempt <? retryAttempts (config o)). Qed.

Lemma waits_backoff o attempt :
  waits (backoff o attempt) =
    if attempt <? retryAttempts (config o)
    then [retryDelay (config o) * attempt] else [].
Proof. unfold backoff. by destruct (attempt <? retryAttempts (config o)). Qed.

Lemma waits_echo o timestamp logEntry : waits (echo o timestamp logEntry) = [].
Proof. unfold echo. by destruct (enableConsoleLog (config o)). Qed.

Lemma requests_failure_report o logEntry lastError :
  requests (failure_report o logEntry lastError) = [].
Proof. unfold failure_report. by destruct (enableConsoleLog (config o)). Qed.

Lemma waits_failure_report o logEntry lastError :
  waits (failure_report o logEntry lastError) = [].
Proof. unfold failure_report. by destruct (enableConsoleLog (config o)). Qed.

Lemma requests_cons_request r evs : requests (Request r :: evs) = r :: requests evs.
Proof. reflexivity. Qed.

Lemma waits_cons_request r evs : waits (Request r :: evs) = waits evs.
Proof. reflexivity. Qed.

Create Rewrite HintDb observe.
#[local] Hint Rewrite requests_app waits_app requests_attempt_warning
  waits_attempt_warning requests_auth_notice waits_auth_notice
  requests_backoff requests_echo waits_echo requests_failure_report
  waits_failure_report requests_cons_request waits_cons_request
  emitted_extend extend_extend : observe.

(** ** Replies seen through axios *)

Lemma axios_settle_success payload :
  axios_settle (HttpReply 200 payload) =
    Fulfilled {| status := 200; data := payload |}.
Proof. reflexivity. Qed.

Lemma axios_settle_auth code payload :
  code = 401 \/ code = 403 ->
  exists error,
    axios_settle (HttpReply code payload) = Rejected error /\
    isAxiosError error && auth_status error = true /\
    err_message error = "Request failed with status code " +:+ pretty code.
Proof.
  intros [-> | ->]; eexists; by split_and!.
Qed.

(** C3. A reply with status 401 or 403 ends the delivery loop at once,
    whatever the number of attempts that are left: the turn that met it
    dispatched one request, no wait follows, and the loop is left with that
    error.  So when the collector answers 401 to every request and at
    least one attempt is allowed, [log] dispatches exactly one request,
    waits for nothing and resolves to [null]. *)
Theorem abort_on_401_403 w stack level packageName message :
  let logEntry := {| stack := stack; level := level; package := packageName;
                     message := message |} in
  (forall fuel attempt lastError code payload,
     attempt <= retryAttempts (config (this w)) ->
     code = 401 \/ code = 403 ->
     collector w (dispatched w) = axios_settle (HttpReply code payload) ->
     exists error w',
       for_attempts (S fuel) logEntry attempt lastError w
         = (Normal (Break (Some error)), w') /\
       length (requests (emitted w w')) = 1%nat /\
       waits (emitted w w') = [] /\
       dispatched w' = S (dispatched w)) /\
  (1 <= retryAttempts (config (this w)) ->
   (forall k, exists payload,
        collector w k = axios_settle (HttpReply 401 payload)) ->
   exists w',
     log stack level packageName message w = (Normal None, w') /\
     length (requests (emitted w w')) = 1%nat /\
     waits (emitted w w') = []).
Proof.
  intros logEntry. split.
  - intros fuel attempt lastError code payload Hturn Hcode Hsettle.
    destruct (axios_settle_auth code payload Hcode) as (error & He & Hauth & _).
    rewrite He in Hsettle.
    rewrite (for_attempts_abort logEntry fuel attempt lastError w Hturn
               error Hsettle Hauth).
    eexists _, _. split; [reflexivity|].
    autorewrite with observe. simpl.
    autorewrite with observe. simpl. split_and!; [done | done | lia].
  - intros Hmax Hnet.
    rewrite log_eq. fold logEntry. rewrite sendLogToAPI_eq.
    set (w1 := extend w _ 0).
    destruct (Hnet (dispatched w1)) as [payload Hsettle].
    destruct (axios_settle_auth 401 payload (or_introl eq_refl))
      as (error & He & Hauth & _).
    change (collector w (dispatched w1)) with (collector w1 (dispatched w1))
      in Hsettle.
    rewrite He in Hsettle.
    destruct (Z.to_nat (retryAttempts (config (this w1)))) as [|fuel] eqn:Hfuel;
      [simpl in Hfuel; lia|].
    rewrite (for_attempts_abort logEntry fuel 1 None w1 Hmax error Hsettle Hauth).
    unfold w1. eexists. split; [reflexivity|].
    autorewrite with observe. simpl.
    autorewrite with observe. simpl. by autorewrite with observe.
Qed.

Lemma abort_on_401_403_witness :
  let w := world_of (createBackendLogger "http://collector" "expired")
             (fun _ => HttpReply 401 JsNull) in
  exists w',
    log "backend" "error" "auth" "denied" w = (Normal None, w') /\
    length (requests (emitted w w')) = 1%nat /\
    waits (emitted w w') = [].
Proof.
  intros w.
  apply (proj2 (abort_on_401_403 w "backend" "error" "auth" "denied")).
  - simpl. lia.
  - intros k. exists JsNull. reflexivity.
Defined.

(** C4, as amended. A turn returns from [sendLogToAPI] exactly when its
    request is answered with status 200 and a truthy body: a body that is
    not empty and is not [null], [false] or [0] either (a non-empty body
    alone is not enough).  The loop then stops there, after that single
    request and with no wait, and hands back the body.  So when the
    collector answers every request with 200 and such a body and at least
    one attempt is allowed, [log] dispatches exactly one request, waits
    for nothing and resolves to the body of that first reply. *)
Theorem success_is_200_with_body w stack level packageName message :
  let logEntry := {| stack := stack; level := level; package := packageName;
                     message := message |} in
  (forall attempt lastError outcome,
     collector w (dispatched w) = axios_settle outcome ->
     (exists v w', attempt_body logEntry attempt lastError w
                     = (Normal (Return v), w'))
     <-> (exists payload, outcome = HttpReply 200 payload /\
                          truthy payload = true)) /\
  (forall fuel attempt lastError payload,
     attempt <= retryAttempts (config (this w)) ->
     collector w (dispatched w) = axios_settle (HttpReply 200 payload) ->
     truthy payload = true ->
     exists w',
       for_attempts (S fuel) logEntry attempt lastError w
         = (Normal (Return payload), w') /\
       length (requests (emitted w w')) = 1%nat /\
       waits (emitted w w') = []) /\
  (forall payload,
     1 <= retryAttempts (config (this w)) ->
     (forall k, collector w k = axios_settle (HttpReply 200 (payload k))) ->
     (forall k, truthy (payload k) = true) ->
     exists w',
       log stack level packageName message w
         = (Normal (Some (payload (dispatched w))), w') /\
       length (requests (emitted w w')) = 1%nat /\
       waits (emitted w w') = []) /\
  (forall payload,
     truthy payload = false <->
     payload = JsUndefined \/ payload = JsNull \/ payload = JsBool false \/
     payload = JsNumber 0 \/ payload = JsString "") /\
  (forall payload, truthy payload = true -> non_empty_body payload = true).
Proof.
  intros logEntry. split; [|split; [|split; [|split]]].
  5:{ by intros [| |[]|n|s|fields]. }
  4:{ intros [| |[]|n|s|fields]; simpl;
        [ | | | | destruct (Z.eqb_spec n 0) as [->|Hn]
                | destruct (String.eqb_spec s "") as [->|Hs] | ];
        simpl; intuition congruence. }
  - intros attempt lastError outcome Hsettle. split.
    + intros (v & w' & Hrun).
      destruct outcome as [code payload| |]; simpl in Hsettle.
      * destruct ((200 <=? code) && (code <? 300)) eqn:H2xx.
        -- rewrite (attempt_body_fulfilled _ _ _ _ _ Hsettle) in Hrun.
           simpl in Hrun.
           destruct ((code =? 200) && truthy payload) eqn:Hok; [|done].
           apply andb_true_iff in Hok as [Hc Ht].
           exists payload. split; [f_equal; lia | done].
        -- set (error := {| isAxiosError := true |}) in Hsettle.
           destruct (isAxiosError error && auth_status error) eqn:Hauth.
           ++ by rewrite (attempt_body_abort _ _ _ _ _ Hsettle Hauth) in Hrun.
           ++ by rewrite (attempt_body_retry _ _ _ _ _ Hsettle Hauth) in Hrun.
      * by rewrite (attempt_body_retry _ _ _ _ _ Hsettle eq_refl) in Hrun.
      * by rewrite (attempt_body_retry _ _ _ _ _ Hsettle eq_refl) in Hrun.
    + intros (payload & -> & Ht). rewrite axios_settle_success in Hsettle.
      rewrite (attempt_body_fulfilled _ _ _ _ _ Hsettle). simpl. rewrite Ht.
      by eexists _, _.
  - intros fuel attempt lastError payload Hturn Hsettle Ht.
    rewrite axios_settle_success in Hsettle.
    rewrite (for_attempts_success logEntry fuel attempt lastError w Hturn
               _ Hsettle) by (simpl; by rewrite Ht).
    eexists. split; [reflexivity|]. by autorewrite with observe.
  - intros payload Hmax Hnet Ht.
    rewrite log_eq. fold logEntry. rewrite sendLogToAPI_eq.
    set (w1 := extend w _ 0).
    assert (Hsettle : collector w1 (dispatched w1)
                      = Fulfilled {| status := 200;
                                     data := payload (dispatched w) |}).
    { simpl. rewrite Nat.add_0_r. apply Hnet. }
    destruct (Z.to_nat (retryAttempts (config (this w1)))) as [|fuel] eqn:Hfuel;
      [simpl in Hfuel; lia|].
    rewrite (for_attempts_success logEntry fuel 1 None w1 Hmax _ Hsettle)
      by (simpl; by rewrite Ht).
    unfold w1. eexists. split; [reflexivity|].
    autorewrite with observe. simpl. by autorewrite with observe.
Qed.

Lemma success_is_200_with_body_witness :
  let ack := JsObject [("logID", JsString "a1"); ("message", JsString "log created")] in
  let w := world_of (createFrontendLogger "http://collector" "t0")
             (fun _ => HttpReply 200 ack) in
  exists w',
    log "frontend" "info" "page" "loaded" w = (Normal (Some ack), w') /\
    length (requests (emitted w w')) = 1%nat /\
    waits (emitted w w') = [].
Proof.
  intros ack w.
  apply (proj1 (proj2 (proj2 (success_is_200_with_body w "frontend" "info"
                                "page" "loaded"))) (fun _ => ack)).
  - simpl. lia.
  - intros k. reflexivity.
  - intros k. reflexivity.
Defined.

(** C4, counterexample to the wording with a non-empty body.  A reply
    with status 200 and the body [0]: the body is not empty, yet the turn
    does not return, and with a collector that always answers so
    [log] uses its three attempts and resolves to [null]. *)
Lemma non_empty_body_is_not_enough :
  let w := world_of (createFrontendLogger "http://collector" "t0")
             (fun _ => HttpReply 200 (JsNumber 0)) in
  let logEntry := {| stack := "frontend"; level := "info"; package := "api";
                     message := "hello" |} in
  collector w (dispatched w) = axios_settle (HttpReply 200 (JsNumber 0)) /\
  non_empty_body (JsNumber 0) = true /\
  ~ (exists v w', attempt_body logEntry 1 None w = (Normal (Return v), w')) /\
  (log "frontend" "info" "api" "hello" w).1 = Normal None /\
  length (requests (emitted w (log "frontend" "info" "api" "hello" w).2))
    = 3%nat.
Proof.
  intros w logEntry. split_and!; try reflexivity.
  intros (v & w' & Hrun). vm_compute in Hrun. discriminate.
Qed.

(** ** The token and the wiring of the client *)

Lemma wired_constructor c : wired (constructor c).
Proof. by split_and!. Qed.

Lemma wired_rebuild o : wired o -> o = constructor (LoggerConfig_of (config o)).
Proof.
  destruct o as [[] []]. unfold wired, constructor. simpl.
  by intros (-> & -> & ->).
Qed.

Lemma updateAccessToken_eq newToken w :
  updateAccessToken newToken w =
    (Normal tt,
     {| this :=
          {| config :=
               {| apiUrl := apiUrl (config (this w));
                  accessToken := newToken;
                  defaultStack := defaultStack (config (this w));
                  enableConsoleLog := enableConsoleLog (config (this w));
                  retryAttempts := retryAttempts (config (this w));
                  retryDelay := retryDelay (config (this w)) |};
             apiClient :=
               {| defaults_baseURL := defaults_baseURL (apiClient (this w));
                  defaults_headers :=
                    <["Authorization" := "Bearer " +:+ newToken]>
                      (defaults_headers (apiClient (this w)));
                  defaults_timeout := defaults_timeout (apiClient (this w)) |} |};
        effects := effects w; collector := collector w;
        dispatched := dispatched w; clock := clock w |}).
Proof. reflexivity. Qed.

Lemma wired_updateAccessToken newToken w w' :
  updateAccessToken newToken w = (Normal tt, w') ->
  wired (this w) -> wired (this w').
Proof.
  rewrite updateAccessToken_eq. intros [= <-] (Hb & Hh & Ht).
  unfold wired. simpl. rewrite Hh. split_and!; [done | | done].
  apply insert_insert_eq.
Qed.

Lemma getConfig_eq w : getConfig w = (Normal (config (this w)), w).
Proof. reflexivity. Qed.

(** C7. [updateAccessToken] completes on the instance as it stands: it
    stores the new token and sets the [Authorization] default of the
    client to [Bearer <newToken>], and changes no other configuration
    field, no other client default, no effect already produced (a request
    already dispatched keeps the headers it left with) and nothing of the
    environment.  Every request dispatched afterwards, for as long as the
    instance stays as the update left it, carries the new header.  On an
    instance wired by the constructor the result is the instance that
    constructing anew with the new token would give.  [log], the severity
    methods and [getConfig] leave the instance as it is. *)
Theorem token_update w newToken :
  exists w',
    updateAccessToken newToken w = (Normal tt, w') /\
    (accessToken (config (this w')) = newToken /\
     defaults_headers (apiClient (this w')) !! "Authorization"
       = Some ("Bearer " +:+ newToken)) /\
    (apiUrl (config (this w')) = apiUrl (config (this w)) /\
     defaultStack (config (this w')) = defaultStack (config (this w)) /\
     enableConsoleLog (config (this w')) = enableConsoleLog (config (this w)) /\
     retryAttempts (config (this w')) = retryAttempts (config (this w)) /\
     retryDelay (config (this w')) = retryDelay (config (this w)) /\
     defaults_baseURL (apiClient (this w')) = defaults_baseURL (apiClient (this w)) /\
     defaults_timeout (apiClient (this w')) = defaults_timeout (apiClient (this w)) /\
     (forall name, name <> "Authorization" ->
        defaults_headers (apiClient (this w')) !! name
          = defaults_headers (apiClient (this w)) !! name)) /\
    (effects w' = effects w /\ dispatched w' = dispatched w /\
     collector w' = collector w /\ clock w' = clock w) /\
    (forall w2 stack level packageName message r w3 q,
       this w2 = this w' ->
       log stack level packageName message w2 = (r, w3) ->
       q ∈ requests (emitted w2 w3) ->
       headers q !! "Authorization" = Some ("Bearer " +:+ newToken)) /\
    (wired (this w) ->
     this w' = constructor (LoggerConfig_of (config (this w')))) /\
    (forall call r w1 stack level packageName message,
       call ∈ [log stack level packageName message;
               debug packageName message; info packageName message;
               warn packageName message; error packageName message;
               fatal packageName message] ->
       call w = (r, w1) ->
       this w1 = this w /\ effects w1 = effects w ++ emitted w w1) /\
    getConfig w = (Normal (config (this w)), w).
Proof.
  eexists. split; [apply updateAccessToken_eq|]. simpl.
  split_and!; try done.
  - apply lookup_insert_eq.
  - intros name Hname. by apply lookup_insert_ne.
  - intros w2 stack level packageName message r w3 q Hthis Hrun Hq.
    rewrite (log_requests _ _ _ _ _ _ _ _ Hrun Hq). simpl. rewrite Hthis.
    simpl. apply lookup_insert_eq.
  - intros Hw. apply wired_rebuild.
    by apply (wired_updateAccessToken newToken w _ (updateAccessToken_eq _ _)).
  - intros call r w1 stack level packageName message Hcall Hrun.
    destruct (severity_eq w packageName message) as (Hd & Hi & Hw & He & Hf).
    repeat (apply elem_of_cons in Hcall as [->|Hcall]);
      [| | | | | | by apply elem_of_nil in Hcall];
      rewrite ?Hd, ?Hi, ?Hw, ?He, ?Hf in Hrun;
      apply log_frame in Hrun; by destruct Hrun as (? & _ & _ & ? & _).
Qed.

Lemma token_update_witness :
  let w := world_of (createFrontendLogger "http://collector" "old")
             (fun _ => HttpReply 503 JsNull) in
  let w1 := snd (updateAccessToken "new" w) in
  let w2 := snd (log "frontend" "info" "auth" "token rotated" w1) in
  this w1 = createFrontendLogger "http://collector" "new" /\
  length (requests (emitted w1 w2)) = 3%nat /\
  Forall (fun q => headers q !! "Authorization" = Some "Bearer new")
    (requests (emitted w1 w2)).
Proof.
  intros w w1 w2.
  destruct (token_update w "new")
    as (w' & Hrun & _ & _ & _ & Hafter & Hbuild & _).
  assert (Hw1 : w1 = w') by (unfold w1; by rewrite Hrun).
  split_and!.
  - rewrite Hw1, Hbuild by apply wired_constructor.
    rewrite <- Hw1. reflexivity.
  - reflexivity.
  - apply Forall_forall. intros q Hq.
    apply (Hafter w1 "frontend" "info" "auth" "token rotated"
             (fst (log "frontend" "info" "auth" "token rotated" w1)) w2 q);
      [by rewrite Hw1 | apply surjective_pairing | exact Hq].
Defined.



(** ** Failures that are thrown: the schedule of the waits *)

(** When every request is rejected with an error the loop retries, the
    loop entered at [attempt] takes all the turns that are left: one
    request per turn, and after turn [n] a wait of [retryDelay * n], but
    for the last turn; it is left with the error of the last request. *)
Lemma thrown_failures_exhaust logEntry fuel :
  forall attempt lastError w,
    (forall k, (dispatched w <= k)%nat -> rejected_retryably w k) ->
    Z.of_nat fuel = retryAttempts (config (this w)) - attempt + 1 ->
    exists lastError' evs,
      for_attempts fuel logEntry attempt lastError w =
        (Normal (Break lastError'), extend w evs fuel) /\
      length (requests evs) = fuel /\
      waits evs =
        (fun n => retryDelay (config (this w)) * n)
          <$> seqZ attempt (retryAttempts (config (this w)) - attempt) /\
      (fuel = 0%nat -> lastError' = lastError) /\
      (forall fuel', fuel = S fuel' ->
         exists error, lastError' = Some error /\
                       collector w (dispatched w + fuel')%nat = Rejected error).
Proof.
  induction fuel as [|fuel IH]; intros attempt lastError w Hnet Hfuel.
  - rewrite for_attempts_past by lia.
    exists lastError, []. rewrite extend_nil.
    split_and!; try done. by rewrite seqZ_nil by lia.
  - destruct (Hnet (dispatched w)) as (error & Hsettle & Hauth); [lia|].
    rewrite (for_attempts_retry logEntry fuel attempt lastError w
               ltac:(lia) error Hsettle Hauth).
    set (evs1 := Request (request_of (this w) logEntry)
                   :: attempt_warning (this w) attempt error
                   ++ backoff (this w) attempt).
    destruct (IH (attempt + 1) (Some error) (extend w evs1 1))
      as (le & evs & Hrun & Hreq & Hwait & Hzero & Hlast).
    { intros k Hk. apply Hnet. simpl in Hk. lia. }
    { simpl. lia. }
    exists le, (evs1 ++ evs). rewrite Hrun, extend_extend.
    simpl in Hwait.
    split_and!.
    + done.
    + unfold evs1. autorewrite with observe. simpl. by rewrite Hreq.
    + unfold evs1. autorewrite with observe. simpl.
      rewrite waits_backoff, Hwait.
      destruct (Z.ltb_spec attempt (retryAttempts (config (this w)))).
      * rewrite (seqZ_cons attempt) by lia. simpl.
        do 3 f_equal; lia.
      * by rewrite !seqZ_nil by lia.
    + discriminate.
    + intros fuel' [= <-]. destruct fuel as [|fuel''].
      * exists error. rewrite Nat.add_0_r. split; [by apply Hzero | done].
      * destruct (Hlast fuel'' eq_refl) as (error' & -> & Hc).
        exists error'. split; [done|]. simpl in Hc.
        by replace (dispatched w + S fuel'')%nat
          with (dispatched w + 1 + fuel'')%nat by lia.
Qed.

(** When every request of a call is rejected with an error the loop
    retries (a time-out, a network error, a 5xx reply), [log] uses up its
    [retryAttempts] attempts, waits [retryDelay * n] after each attempt [n]
    but the last, resolves to [null] and, with the console echo enabled,
    closes with the message of the last error and the record. *)
Lemma log_exhausts_on_thrown_failures w stack level packageName message :
  let logEntry := {| stack := stack; level := level; package := packageName;
                     message := message |} in
  let N := retryAttempts (config (this w)) in
  1 <= N ->
  (forall k, (dispatched w <= k)%nat -> rejected_retryably w k) ->
  exists w' error before,
    log stack level packageName message w = (Normal None, w') /\
    length (requests (emitted w w')) = Z.to_nat N /\
    waits (emitted w w')
      = (fun n => retryDelay (config (this w)) * n) <$> seqZ 1 (N - 1) /\
    length (waits (emitted w w')) = Z.to_nat (N - 1) /\
    collector w (dispatched w + Z.to_nat (N - 1))%nat = Rejected error /\
    emitted w w' = before ++ failure_report (this w) logEntry (Some error).
Proof.
  intros logEntry N HN Hnet.
  rewrite log_eq. fold logEntry. rewrite sendLogToAPI_eq.
  set (w1 := extend w _ 0).
  destruct (thrown_failures_exhaust logEntry
              (Z.to_nat (retryAttempts (config (this w1)))) 1 None w1)
    as (le & evs & Hrun & Hreq & Hwait & _ & Hlast).
  { intros k Hk. apply Hnet. simpl in Hk. lia. }
  { simpl. fold N. lia. }
  rewrite Hrun. simpl in Hreq, Hwait, Hlast. fold N in Hreq, Hwait, Hlast.
  destruct (Hlast (Z.to_nat (N - 1)) ltac:(lia)) as (error & -> & Hc).
  unfold w1. autorewrite with observe. simpl.
  eexists _, error, _. split; [reflexivity|].
  autorewrite with observe. simpl.
  rewrite !app_nil_r, Hreq, Hwait, length_fmap, length_seqZ.
  rewrite Nat.add_0_r in Hc. split_and!; try done.
  by rewrite app_assoc.
Qed.

(** The collector fails attempts 1 and 2 with a 500 and acknowledges
    attempt 3, three attempts being allowed: three requests, a wait of
    1 x [retryDelay] and then one of 2 x [retryDelay], and the body of the
    third reply as the result. *)
Lemma two_failures_then_success w stack level packageName message p1 p2 ack :
  retryAttempts (config (this w)) = 3 ->
  collector w (dispatched w) = axios_settle (HttpReply 500 p1) ->
  collector w (S (dispatched w)) = axios_settle (HttpReply 500 p2) ->
  collector w (S (S (dispatched w))) = axios_settle (HttpReply 200 ack) ->
  truthy ack = true ->
  exists w',
    log stack level packageName message w = (Normal (Some ack), w') /\
    length (requests (emitted w w')) = 3%nat /\
    waits (emitted w w')
      = [retryDelay (config (this w)) * 1; retryDelay (config (this w)) * 2].
Proof.
  intros HN H1 H2 H3 Hack.
  rewrite log_eq, sendLogToAPI_eq.
  set (logEntry := {| stack := stack |}). set (w1 := extend w _ 0).
  assert (Hd : dispatched w1 = dispatched w) by (simpl; lia).
  change (retryAttempts (config (this w1))) with (retryAttempts (config (this w))).
  rewrite HN. change (Z.to_nat 3) with 3%nat.
  rewrite (for_attempts_retry logEntry 2 1 None w1 ltac:(simpl; lia)
             _ ltac:(rewrite Hd; exact H1) eq_refl).
  set (w2 := extend w1 _ 1).
  assert (Hd2 : dispatched w2 = S (dispatched w)) by (simpl; lia).
  rewrite (for_attempts_retry logEntry 1 (1 + 1) _ w2 ltac:(simpl; lia)
             _ ltac:(rewrite Hd2; exact H2) eq_refl).
  set (w3 := extend w2 _ 1).
  assert (Hd3 : dispatched w3 = S (S (dispatched w))) by (simpl; lia).
  rewrite (for_attempts_success logEntry 0 (1 + 1 + 1) _ w3 ltac:(simpl; lia)
             {| status := 200; data := ack |}
             ltac:(rewrite Hd3; exact H3))
    by (simpl; by rewrite Hack).
  unfold w3, w2, w1. eexists. split; [reflexivity|].
  autorewrite with observe. simpl.
  autorewrite with observe. simpl.
  rewrite !waits_backoff. simpl. rewrite HN. simpl.
  by autorewrite with observe.
Qed.

(** ** Replies that fulfil the promise without being a success *)

(** C2. The frontend profile (3 attempts, base delay 1000), a first reply
    with status 200 and an empty body, then an acknowledgement: attempt 1
    has failed and attempt 2 follows it with no wait in between, where the
    schedule asks for a wait of 1000. *)
Theorem no_backoff_after_empty_reply :
  let ack := JsObject [("logID", JsString "a1")] in
  let w := world_of (createFrontendLogger "http://collector" "t0")
             (empty_then_ack ack) in
  let q := request_of (this w)
             {| stack := "frontend"; level := "info"; package := "api";
                message := "hello" |} in
  exists w',
    log "frontend" "info" "api" "hello" w = (Normal (Some ack), w') /\
    emitted w w' =
      [Console console_info
         [ArgString "[2025-01-01T00:00:00.000Z] [FRONTEND] [INFO] [api] hello"];
       Request q; Request q] /\
    waits (emitted w w') = [].
Proof.
  intros ack w q.
  exists (snd (log "frontend" "info" "api" "hello" w)).
  split_and!; vm_compute; reflexivity.
Qed.

(** C5. The frontend profile (3 attempts) and a collector whose every
    reply has status 200 and an empty body: all three attempts fail and
    [log] resolves to [null] after three requests, but with no wait at all
    where two are due, and the closing diagnostic has [undefined] for the
    message of the last error. *)
Theorem no_backoff_when_every_reply_is_empty :
  let w := world_of (createFrontendLogger "http://collector" "t0")
             always_empty in
  let logEntry := {| stack := "frontend"; level := "info"; package := "api";
                     message := "hello" |} in
  let q := request_of (this w) logEntry in
  exists w',
    log "frontend" "info" "api" "hello" w = (Normal None, w') /\
    emitted w w' =
      [Console console_info
         [ArgString "[2025-01-01T00:00:00.000Z] [FRONTEND] [INFO] [api] hello"];
       Request q; Request q; Request q;
       Console console_error
         [ArgString "Failed to send log to API after all retries:";
          ArgUndefined];
       Console console_error
         [ArgString "Original log entry:"; ArgEntry logEntry]] /\
    length (requests (emitted w w')) = 3%nat /\
    waits (emitted w w') = [].
Proof.
  intros w logEntry q.
  exists (snd (log "frontend" "info" "api" "hello" w)).
  split_and!; vm_compute; reflexivity.
Qed.


(** ** The loop follows the relation *)

Lemma for_attempts_turns logEntry fuel :
  forall attempt lastError w,
    retryAttempts (config (this w)) - attempt + 1 <= Z.of_nat fuel ->
    exists flow evs,
      for_attempts fuel logEntry attempt lastError w =
        (Normal flow, extend w evs (length (requests evs))) /\
      turns logEntry attempt lastError w flow evs.
Proof.
  induction fuel as [|fuel IH]; intros attempt lastError w Hfuel.
  - rewrite for_attempts_past by lia.
    exists (Break lastError), []. rewrite extend_nil.
    split; [done | constructor; lia].
  - destruct (Z.leb_spec attempt (retryAttempts (config (this w)))) as [Hle|Hgt].
    2:{ rewrite for_attempts_past by lia.
        exists (Break lastError), []. rewrite extend_nil.
        split; [done | by constructor]. }
    destruct (collector w (dispatched w)) as [r|error] eqn:Hsettle.
    + destruct ((status r =? 200) && truthy (data r)) eqn:Hok.
      * rewrite (for_attempts_success logEntry fuel attempt lastError w Hle
                   r Hsettle Hok).
        exists (Return (data r)), [Request (request_of (this w) logEntry)].
        split; [done | by constructor].
      * rewrite (for_attempts_unsuccessful logEntry fuel attempt lastError w
                   Hle r Hsettle Hok).
        destruct (IH (attempt + 1) lastError
                    (extend w [Request (request_of (this w) logEntry)] 1))
          as (flow & evs & Hrun & Hturns); [simpl; lia|].
        exists flow, (Request (request_of (this w) logEntry) :: evs).
        rewrite Hrun, extend_extend. split; [done|].
        by eapply turns_unsuccessful.
    + destruct (isAxiosError error && auth_status error) eqn:Hauth.
      * rewrite (for_attempts_abort logEntry fuel attempt lastError w Hle
                   error Hsettle Hauth).
        exists (Break (Some error)),
          (Request (request_of (this w) logEntry)
             :: attempt_warning (this w) attempt error ++ auth_notice (this w)).
        split; [| by constructor].
        f_equal. f_equal. autorewrite with observe. simpl.
        by autorewrite with observe.
      * rewrite (for_attempts_retry logEntry fuel attempt lastError w Hle
                   error Hsettle Hauth).
        set (evs1 := Request (request_of (this w) logEntry)
                       :: attempt_warning (this w) attempt error
                       ++ backoff (this w) attempt).
        destruct (IH (attempt + 1) (Some error) (extend w evs1 1))
          as (flow & evs & Hrun & Hturns); [simpl; lia|].
        exists flow, (evs1 ++ evs).
        rewrite Hrun, extend_extend. split; [|by eapply turns_retry].
        f_equal. f_equal. unfold evs1. autorewrite with observe. simpl.
        by autorewrite with observe.
Qed.

(** A call of [log], as the echo, the turns of the loop and the closing
    report. *)
Lemma log_turns w stack level packageName message :
  let logEntry := {| stack := stack; level := level; package := packageName;
                     message := message |} in
  let w1 := extend w (echo (this w) (clock w) logEntry) 0 in
  exists flow evs,
    turns logEntry 1 None w1 flow evs /\
    log stack level packageName message w =
      match flow with
      | Return v => (Normal (Some v), extend w1 evs (length (requests evs)))
      | Next lastError | Break lastError =>
          (Normal None,
           extend w1 (evs ++ failure_report (this w) logEntry lastError)
             (length (requests evs)))
      end.
Proof.
  intros logEntry w1. rewrite log_eq. fold logEntry w1.
  rewrite sendLogToAPI_eq.
  destruct (for_attempts_turns logEntry
              (Z.to_nat (retryAttempts (config (this w1)))) 1 None w1)
    as (flow & evs & Hrun & Hturns); [lia|].
  exists flow, evs. split; [done|]. rewrite Hrun.
  destruct flow; try done; rewrite extend_extend, Nat.add_0_r; done.
Qed.

(** ** What every run of the loop keeps to *)

Lemma turns_bounded logEntry attempt lastError w flow evs :
  turns logEntry attempt lastError w flow evs ->
  (length (requests evs)
     <= Z.to_nat (retryAttempts (config (this w)) - attempt + 1))%nat /\
  sublist (waits evs)
    ((fun n => retryDelay (config (this w)) * n)
       <$> seqZ attempt (retryAttempts (config (this w)) - attempt)).
Proof.
  induction 1 as [a le w Hover | a le w r Hle Hs Hok
                 | a le w r flow evs Hle Hs Hok Hturns [IHr IHw]
                 | a le w error Hle Hs Hauth
                 | a le w error flow evs Hle Hs Hauth Hturns [IHr IHw]];
    simpl in *.
  - split; [lia | apply sublist_nil_l].
  - split; [lia | apply sublist_nil_l].
  - split; [lia|].
    destruct (Z.ltb_spec a (retryAttempts (config (this w)))).
    + rewrite (seqZ_cons a) by lia. simpl. apply sublist_cons.
      by replace (Z.succ a) with (a + 1) by lia;
         replace (Z.pred (retryAttempts (config (this w)) - a))
           with (retryAttempts (config (this w)) - (a + 1)) by lia.
    + by rewrite seqZ_nil in IHw |- * by lia.
  - autorewrite with observe. simpl. autorewrite with observe.
    split; [simpl; lia | apply sublist_nil_l].
  - autorewrite with observe. simpl. autorewrite with observe. simpl.
    split; [lia|]. rewrite waits_backoff.
    destruct (Z.ltb_spec a (retryAttempts (config (this w)))).
    + rewrite (seqZ_cons a) by lia. simpl. apply sublist_skip.
      by replace (Z.succ a) with (a + 1) by lia;
         replace (Z.pred (retryAttempts (config (this w)) - a))
           with (retryAttempts (config (this w)) - (a + 1)) by lia.
    + by rewrite seqZ_nil in IHw |- * by lia.
Qed.

Lemma turns_silent logEntry attempt lastError w flow evs :
  enableConsoleLog (config (this w)) = false ->
  turns logEntry attempt lastError w flow evs ->
  Forall silent evs.
Proof.
  intros Hoff. induction 1 as [| | a le w r flow evs Hle Hs Hok Hturns IH
                              | a le w error Hle Hs Hauth
                              | a le w error flow evs Hle Hs Hauth Hturns IH].
  - constructor.
  - by repeat constructor.
  - constructor; [done | by apply IH].
  - unfold attempt_warning, auth_notice. rewrite Hoff.
    by repeat constructor.
  - unfold attempt_warning, backoff. rewrite Hoff. simpl.
    destruct (a <? retryAttempts (config (this w))); simpl;
      repeat (constructor; [done|]); by apply IH.
Qed.

Lemma turns_returns logEntry attempt lastError w flow evs :
  turns logEntry attempt lastError w flow evs ->
  forall v, flow = Return v ->
    exists evs0 r,
      evs = evs0 ++ [Request (request_of (this w) logEntry)] /\
      collector w (dispatched w + length (requests evs0))%nat = Fulfilled r /\
      (status r =? 200) && truthy (data r) = true /\
      v = data r.
Proof.
  induction 1 as [| a le w r Hle Hs Hok
                 | a le w r flow evs Hle Hs Hok Hturns IH
                 | a le w error Hle Hs Hauth
                 | a le w error flow evs Hle Hs Hauth Hturns IH];
    intros v Hv; try discriminate.
  - injection Hv as <-. exists [], r. simpl. by rewrite Nat.add_0_r.
  - destruct (IH v Hv) as (evs0 & r' & -> & Hc & Hok' & ->). simpl in Hc.
    exists (Request (request_of (this w) logEntry) :: evs0), r'.
    split_and!; try done. simpl.
    by replace (dispatched w + S (length (requests evs0)))%nat
      with (dispatched w + 1 + length (requests evs0))%nat by lia.
  - destruct (IH v Hv) as (evs0 & r' & -> & Hc & Hok' & ->). simpl in Hc.
    eexists (_ ++ evs0), r'. split_and!; try done.
    + by rewrite <- app_assoc.
    + autorewrite with observe. simpl. autorewrite with observe. simpl.
      by replace (dispatched w + S (length (requests evs0)))%nat
        with (dispatched w + 1 + length (requests evs0))%nat by lia.
Qed.

Lemma turns_last_error logEntry attempt lastError w flow evs :
  turns logEntry attempt lastError w flow evs ->
  match flow with
  | Next _ => False
  | Return _ => True
  | Break lastError' =>
      lastError' = last_rejection (collector w) (dispatched w)
                     (length (requests evs)) lastError
  end.
Proof.
  induction 1 as [| a le w r Hle Hs Hok
                 | a le w r flow evs Hle Hs Hok Hturns IH
                 | a le w error Hle Hs Hauth
                 | a le w error flow evs Hle Hs Hauth Hturns IH].
  - done.
  - done.
  - destruct flow; try done. simpl in *. rewrite Hs.
    by replace (S (dispatched w)) with (dispatched w + 1)%nat by lia.
  - autorewrite with observe. simpl. autorewrite with observe. simpl.
    by rewrite Hs.
  - destruct flow; try done.
    autorewrite with observe. simpl. autorewrite with observe. simpl in *.
    rewrite Hs.
    by replace (S (dispatched w)) with (dispatched w + 1)%nat by lia.
Qed.

Lemma log_effects_bounded w stack level packageName message :
  let w' := (log stack level packageName message w).2 in
  let N := retryAttempts (config (this w)) in
  (length (requests (emitted w w')) <= Z.to_nat N)%nat /\
  dispatched w' = (dispatched w + length (requests (emitted w w')))%nat /\
  sublist (waits (emitted w w'))
    ((fun n => retryDelay (config (this w)) * n) <$> seqZ 1 (N - 1)).
Proof.
  intros w' N. unfold w'.
  destruct (log_turns w stack level packageName message)
    as (flow & evs & Hturns & ->).
  apply turns_bounded in Hturns as [Hreq Hwait]. simpl in Hreq, Hwait.
  fold N in Hreq, Hwait.
  destruct flow; simpl; autorewrite with observe; simpl;
    rewrite ?app_nil_r; (split_and!; [lia | lia | done]).
Qed.

(** X1. However the requests settle, a call of [log] dispatches at most
    [retryAttempts] requests (none when that is not positive), its waits
    are, in order, waits of the schedule [retryDelay * 1], ...,
    [retryDelay * (retryAttempts - 1)], each at most once, and the count of
    dispatched requests advances by the requests of the call. *)
Theorem log_is_bounded w stack level packageName message :
  let w' := (log stack level packageName message w).2 in
  let N := retryAttempts (config (this w)) in
  (length (requests (emitted w w')) <= Z.to_nat N)%nat /\
  dispatched w' = (dispatched w + length (requests (emitted w w')))%nat /\
  sublist (waits (emitted w w'))
    ((fun n => retryDelay (config (this w)) * n) <$> seqZ 1 (N - 1)) /\
  (length (waits (emitted w w')) <= Z.to_nat (N - 1))%nat.
Proof.
  intros w' N.
  destruct (log_effects_bounded w stack level packageName message)
    as (Hreq & Hd & Hsub). fold w' N in Hreq, Hd, Hsub.
  split_and!; try done.
  apply sublist_length in Hsub.
  by rewrite length_fmap, length_seqZ in Hsub.
Qed.

Lemma total_of_schedule D m :
  0 <= m ->
  2 * foldr Z.add 0 ((fun n => D * n) <$> seqZ 1 m) = D * (m * (m + 1)).
Proof.
  intros Hm. rewrite <- (Z2Nat.id m) by done.
  induction (Z.to_nat m) as [|k IH]; [simpl; lia|].
  rewrite seqZ_S, fmap_app, foldr_app. simpl.
  assert (Hshift : forall l a, foldr Z.add a l = foldr Z.add 0 l + a).
  { induction l as [|x l IHl]; intros a; simpl; [lia | rewrite IHl; lia]. }
  rewrite Hshift. lia.
Qed.

Lemma total_of_sublist (l k : list Z) :
  sublist l k -> Forall (fun x => 0 <= x) k ->
  foldr Z.add 0 l <= foldr Z.add 0 k.
Proof.
  induction 1 as [|x l k Hsub IH|x l k Hsub IH]; intros Hpos; simpl.
  - lia.
  - apply Forall_cons in Hpos as [_ Hpos]. specialize (IH Hpos). lia.
  - apply Forall_cons in Hpos as [Hx Hpos]. specialize (IH Hpos). lia.
Qed.

(** X2. With a non-negative [retryDelay] and at least one attempt, the
    waits of one call of [log] add up to at most
    [retryDelay * N * (N - 1) / 2] for [N = retryAttempts], however the
    requests settle. *)
Theorem log_total_wait_bounded w stack level packageName message :
  0 <= retryDelay (config (this w)) ->
  1 <= retryAttempts (config (this w)) ->
  let w' := (log stack level packageName message w).2 in
  let N := retryAttempts (config (this w)) in
  2 * foldr Z.add 0 (waits (emitted w w'))
    <= retryDelay (config (this w)) * (N * (N - 1)).
Proof.
  intros HD HN w' N.
  destruct (log_effects_bounded w stack level packageName message)
    as (_ & _ & Hsub). fold w' N in Hsub.
  apply total_of_sublist in Hsub.
  - pose proof (total_of_schedule (retryDelay (config (this w))) (N - 1)
                  ltac:(lia)) as Htot.
    replace (N - 1 + 1) with N in Htot by lia. nia.
  - apply Forall_fmap, Forall_forall. intros n Hn. simpl.
    apply elem_of_seqZ in Hn. nia.
Qed.

Lemma log_total_wait_bounded_witness :
  let w := world_of (createBackendLogger "http://collector" "t0")
             (fun _ => NetworkError) in
  let w' := (log "backend" "warn" "db" "retrying" w).2 in
  waits (emitted w w') = [2000; 4000; 6000; 8000] /\
  2 * foldr Z.add 0 (waits (emitted w w')) <= 2000 * (5 * (5 - 1)).
Proof.
  intros w w'. split; [reflexivity|].
  apply (log_total_wait_bounded w "backend" "warn" "db" "retrying");
    simpl; lia.
Defined.

(** X3. With the console echo disabled a call of [log] writes nothing to
    the console, whatever happens to its requests: its effects are
    requests and waits only. *)
Theorem log_is_silent_without_echo w stack level packageName message :
  enableConsoleLog (config (this w)) = false ->
  Forall silent (emitted w (log stack level packageName message w).2).
Proof.
  intros Hoff.
  destruct (log_turns w stack level packageName message)
    as (flow & evs & Hturns & ->).
  apply turns_silent in Hturns; [|done].
  unfold echo, failure_report. rewrite Hoff.
  destruct flow; simpl; autorewrite with observe; simpl;
    by rewrite ?app_nil_r.
Qed.

Lemma log_is_silent_without_echo_witness :
  let w := world_of (createBackendLogger "http://collector" "t0")
             (fun _ => HttpReply 500 JsNull) in
  length (emitted w (log "backend" "error" "db" "down" w).2) = 9%nat /\
  Forall silent (emitted w (log "backend" "error" "db" "down" w).2).
Proof.
  intros w. split; [reflexivity|].
  by apply (log_is_silent_without_echo w "backend" "error" "db" "down").
Defined.

(** X4. When [log] resolves to a value, that value is the body of the
    reply to the last request the call dispatched, a reply with status 200
    and a truthy body, and that request is the last effect of the call:
    nothing is written, waited for or sent after a success. *)
Theorem log_returns_last_reply w stack level packageName message v :
  (log stack level packageName message w).1 = Normal (Some v) ->
  let w' := (log stack level packageName message w).2 in
  exists r,
    (dispatched w < dispatched w')%nat /\
    collector w (pred (dispatched w')) = Fulfilled r /\
    status r = 200 /\ truthy (data r) = true /\ v = data r /\
    last (emitted w w') =
      Some (Request (request_of (this w)
                       {| stack := stack; level := level;
                          package := packageName; message := message |})).
Proof.
  intros Hres w'. unfold w'. revert Hres.
  destruct (log_turns w stack level packageName message)
    as (flow & evs & Hturns & ->).
  destruct flow as [le|le|v']; simpl; try discriminate.
  intros [= ->].
  destruct (turns_returns _ _ _ _ _ _ Hturns v eq_refl)
    as (evs0 & r & -> & Hc & Hok & ->).
  apply andb_true_iff in Hok as [Hs Ht]. simpl in Hc.
  exists r. autorewrite with observe. simpl.
  rewrite length_app. simpl.
  replace (Init.Nat.pred (dispatched w + 0 + (length (requests evs0) + 1)))
    with (dispatched w + 0 + length (requests evs0))%nat by lia.
  split_and!; try done; [lia | lia |].
  by rewrite app_assoc, last_snoc.
Qed.

Lemma log_returns_last_reply_witness :
  let fails k := if (k <? 3)%nat then HttpReply 502 JsNull
                 else HttpReply 200 (JsString "stored") in
  let w := world_of (createBackendLogger "http://collector" "t0") fails in
  let w' := (log "backend" "info" "service" "up" w).2 in
  dispatched w' = 4%nat /\
  exists r, collector w 3 = Fulfilled r /\ JsString "stored" = data r.
Proof.
  intros fails w w'. split; [reflexivity|].
  destruct (log_returns_last_reply w "backend" "info" "service" "up"
              (JsString "stored") eq_refl)
    as (r & _ & Hc & _ & _ & Hv & _).
  exists r. split; [exact Hc | exact Hv].
Defined.

(** X5. When [log] resolves to [null], the call ends with the closing
    report, and the error the report names is the one of the last request
    of the call that was rejected, [undefined] when none was: a later
    reply that merely fails the success test does not replace it. *)
Theorem null_reports_last_rejection w stack level packageName message :
  (log stack level packageName message w).1 = Normal None ->
  let w' := (log stack level packageName message w).2 in
  let logEntry := {| stack := stack; level := level; package := packageName;
                     message := message |} in
  exists before,
    emitted w w' =
      before ++
      failure_report (this w) logEntry
        (last_rejection (collector w) (dispatched w)
           (dispatched w' - dispatched w) None) /\
    requests before = requests (emitted w w').
Proof.
  intros Hres w' logEntry. unfold w'. revert Hres.
  destruct (log_turns w stack level packageName message)
    as (flow & evs & Hturns & ->).
  pose proof (turns_last_error _ _ _ _ _ _ Hturns) as Hlast.
  destruct flow as [le|le|v']; simpl in *; try done.
  intros _. autorewrite with observe. simpl.
  exists (echo (this w) (clock w) logEntry ++ evs).
  rewrite Nat.add_0_r in Hlast.
  replace (dispatched w + 0 + length (requests evs) - dispatched w)%nat
    with (length (requests evs)) by lia.
  rewrite <- Hlast, <- app_assoc. split; [done|].
  autorewrite with observe. by rewrite app_nil_r.
Qed.

Lemma null_reports_last_rejection_witness :
  let mixed k := match k with
                 | O => HttpReply 500 JsNull
                 | _ => HttpReply 200 (JsString "")
                 end in
  let w := world_of (createFrontendLogger "http://collector" "t0") mixed in
  let w' := (log "frontend" "info" "api" "hello" w).2 in
  exists before,
    emitted w w' =
      before ++
      [Console console_error
         [ArgString "Failed to send log to API after all retries:";
          ArgString "Request failed with status code 500"];
       Console console_error
         [ArgString "Original log entry:";
          ArgEntry {| stack := "frontend"; level := "info";
                      package := "api"; message := "hello" |}]].
Proof.
  intros mixed w w'.
  destruct (null_reports_last_rejection w "frontend" "info" "api" "hello"
              eq_refl) as (before & Hem & _).
  exists before. exact Hem.
Defined.

(** X6. When every request of a call is rejected with an error the loop
    retries (a time-out, a network error, a 5xx reply) and at least one
    attempt is allowed, [log] resolves to [null] after exactly
    [retryAttempts] requests and the waits [retryDelay * 1], ...,
    [retryDelay * (retryAttempts - 1)], none after the last attempt, and
    its closing report names the error of the last request. *)
Theorem exhausted_by_thrown_failures w stack level packageName message :
  1 <= retryAttempts (config (this w)) ->
  (forall k, (dispatched w <= k)%nat -> rejected_retryably w k) ->
  let logEntry := {| stack := stack; level := level; package := packageName;
                     message := message |} in
  let N := retryAttempts (config (this w)) in
  let w' := (log stack level packageName message w).2 in
  (log stack level packageName message w).1 = Normal None /\
  length (requests (emitted w w')) = Z.to_nat N /\
  waits (emitted w w')
    = (fun n => retryDelay (config (this w)) * n) <$> seqZ 1 (N - 1) /\
  exists error before,
    collector w (dispatched w + Z.to_nat (N - 1))%nat = Rejected error /\
    emitted w w' = before ++ failure_report (this w) logEntry (Some error).
Proof.
  intros HN Hrej logEntry N w'. unfold w'.
  destruct (log_exhausts_on_thrown_failures w stack level packageName message
              HN Hrej)
    as (w1 & error & before & -> & Hreq & Hwait & _ & Hlast & Hreport).
  simpl. split_and!; [done | done | done |].
  by exists error, before.
Qed.

Lemma exhausted_by_thrown_failures_witness :
  let w := world_of (createBackendLogger "http://collector" "t0")
             (fun _ => TimedOut) in
  let w' := (log "backend" "error" "service" "unreachable" w).2 in
  (log "backend" "error" "service" "unreachable" w).1 = Normal None /\
  length (requests (emitted w w')) = 5%nat /\
  waits (emitted w w') = [2000; 4000; 6000; 8000].
Proof.
  intros w w'.
  destruct (exhausted_by_thrown_failures w "backend" "error" "service"
              "unreachable")
    as (Hres & Hreq & Hwait & _).
  - simpl. lia.
  - intros k _. eexists. split; reflexivity.
  - split_and!; [exact Hres | exact Hreq | exact Hwait].
Defined.

(** ** Failures followed by a success *)

Lemma for_attempts_until_success logEntry k :
  forall fuel attempt lastError w r,
    attempt + Z.of_nat k <= retryAttempts (config (this w)) ->
    (forall i, (i < k)%nat -> rejected_retryably w (dispatched w + i)) ->
    collector w (dispatched w + k)%nat = Fulfilled r ->
    (status r =? 200) && truthy (data r) = true ->
    exists evs,
      for_attempts (S (k + fuel)) logEntry attempt lastError w =
        (Normal (Return (data r)), extend w evs (S k)) /\
      length (requests evs) = S k /\
      waits evs =
        (fun n => retryDelay (config (this w)) * n) <$> seqZ attempt (Z.of_nat k).
Proof.
  induction k as [|k IH]; intros fuel attempt lastError w r Hle Hrej Hs Hok.
  - rewrite Nat.add_0_r in Hs.
    rewrite (for_attempts_success logEntry _ attempt lastError w
               ltac:(lia) r Hs Hok).
    by eexists.
  - destruct (Hrej 0%nat ltac:(lia)) as (error & Hc & Hauth).
    rewrite Nat.add_0_r in Hc.
    rewrite (for_attempts_retry logEntry _ attempt lastError w
               ltac:(lia) error Hc Hauth).
    set (evs1 := Request (request_of (this w) logEntry)
                   :: attempt_warning (this w) attempt error
                   ++ backoff (this w) attempt).
    destruct (IH fuel (attempt + 1) (Some error) (extend w evs1 1) r)
      as (evs & Hrun & Hreq & Hwait); simpl.
    { lia. }
    { intros i Hi. destruct (Hrej (S i) ltac:(lia)) as (e' & He' & Ha').
      exists e'. split; [|done]. simpl.
      by replace (dispatched w + 1 + i)%nat with (dispatched w + S i)%nat
        by lia. }
    { by replace (dispatched w + 1 + k)%nat with (dispatched w + S k)%nat
        by lia. }
    { done. }
    exists (evs1 ++ evs). simpl in Hrun. rewrite Hrun, extend_extend.
    split_and!; [done | |].
    + unfold evs1. autorewrite with observe. simpl. by rewrite Hreq.
    + unfold evs1. autorewrite with observe. simpl.
      rewrite waits_backoff, Hwait. simpl.
      rewrite (proj2 (Z.ltb_lt attempt _)) by lia.
      rewrite (seqZ_cons attempt) by lia. simpl.
      do 3 f_equal; lia.
Qed.

(** X7. When the first [k] requests of a call are rejected with errors
    the loop retries and the next one is answered with status 200 and a
    truthy body, within the allowed attempts, [log] resolves to that body
    after exactly [k + 1] requests and exactly the waits
    [retryDelay * 1], ..., [retryDelay * k]. *)
Theorem retries_until_success w stack level packageName message k r :
  Z.of_nat k + 1 <= retryAttempts (config (this w)) ->
  (forall i, (i < k)%nat -> rejected_retryably w (dispatched w + i)) ->
  collector w (dispatched w + k)%nat = Fulfilled r ->
  status r = 200 -> truthy (data r) = true ->
  let w' := (log stack level packageName message w).2 in
  (log stack level packageName message w).1 = Normal (Some (data r)) /\
  length (requests (emitted w w')) = S k /\
  waits (emitted w w')
    = (fun n => retryDelay (config (this w)) * n) <$> seqZ 1 (Z.of_nat k).
Proof.
  intros HN Hrej Hs H200 Ht w'. unfold w'.
  rewrite log_eq, sendLogToAPI_eq.
  set (logEntry := {| stack := stack |}). set (w1 := extend w _ 0).
  assert (Hfuel : Z.to_nat (retryAttempts (config (this w1)))
                  = S (k + (Z.to_nat (retryAttempts (config (this w))) - S k)))
    by (simpl; lia).
  rewrite Hfuel.
  destruct (for_attempts_until_success logEntry k
              (Z.to_nat (retryAttempts (config (this w))) - S k) 1 None w1 r)
    as (evs & Hrun & Hreq & Hwait).
  { simpl. lia. }
  { intros i Hi. simpl. rewrite Nat.add_0_r. by apply Hrej. }
  { simpl. by rewrite Nat.add_0_r. }
  { rewrite H200, Ht. done. }
  rewrite Hrun. unfold w1. simpl. autorewrite with observe. simpl.
  by rewrite Hreq, Hwait.
Qed.

Lemma retries_until_success_witness :
  let flaky k := if (k <? 2)%nat then TimedOut
                 else HttpReply 200 (JsString "stored") in
  let w := world_of (createFrontendLogger "http://collector" "t0") flaky in
  let w' := (log "frontend" "info" "api" "saved" w).2 in
  (log "frontend" "info" "api" "saved" w).1
    = Normal (Some (JsString "stored")) /\
  length (requests (emitted w w')) = 3%nat /\
  waits (emitted w w') = [1000; 2000].
Proof.
  intros flaky w w'.
  apply (retries_until_success w "frontend" "info" "api" "saved" 2
           {| status := 200; data := JsString "stored" |}).
  - simpl. lia.
  - intros i Hi.
    destruct i as [|[|i]]; [| | lia]; eexists; split; reflexivity.
  - reflexivity.
  - reflexivity.
  - reflexivity.
Defined.

(** X8. Token updates compose as a last write: two updates in a row
    leave the world exactly as the second one alone would, and
    [getConfig] then returns the configuration with that token and every
    other field as it was. *)
Theorem token_updates_compose w token1 token2 :
  (updateAccessToken token2 (updateAccessToken token1 w).2).2
    = (updateAccessToken token2 w).2 /\
  (getConfig (updateAccessToken token2 (updateAccessToken token1 w).2).2).1
    = Normal {| apiUrl := apiUrl (config (this w));
                accessToken := token2;
                defaultStack := defaultStack (config (this w));
                enableConsoleLog := enableConsoleLog (config (this w));
                retryAttempts := retryAttempts (config (this w));
                retryDelay := retryDelay (config (this w)) |}.
Proof.
  rewrite !updateAccessToken_eq. simpl.
  split; [|done]. by rewrite insert_insert_eq.
Qed.

(** ** utils/logger.ts *)

Lemma page_requests_shipped evs :
  page_requests (Shipped <$> evs) = requests evs.
Proof.
  induction evs as [|ev evs IH]; [done|].
  destruct ev; rewrite fmap_cons;
    unfold page_requests, requests in *; cbn [omap list_omap];
    by rewrite IH.
Qed.

Lemma ship_log o stack level packageName message p :
  let w := page_world o p in
  let w' := (log stack level packageName message w).2 in
  ship o (log stack level packageName message) p =
    {| logger := Some (Middleware o);
       page_effects := page_effects p ++ (Shipped <$> emitted w w');
       page_create := page_create p; page_collector := page_collector p;
       page_dispatched :=
         (page_dispatched p + length (requests (emitted w w')))%nat;
       page_clock := page_clock p |}.
Proof.
  intros w w'. unfold ship. fold (page_world o p). fold w. fold w'.
  destruct (log_frame w stack level packageName message _ w'
              (surjective_pairing _)) as (Hthis & _ & _ & Heff & Hd).
  rewrite Hthis, Heff, Hd. done.
Qed.

Lemma page_emitted_app p evs create net n c l :
  page_emitted p
    {| logger := l; page_effects := page_effects p ++ evs;
       page_create := create; page_collector := net; page_dispatched := n;
       page_clock := c |} = evs.
Proof. unfold page_emitted. simpl. by rewrite drop_app_length. Qed.

Lemma getLogger_some p l : logger p = Some l -> getLogger p = (l, p).
Proof. unfold getLogger. by intros ->. Qed.

Lemma Logger_middleware o a1 a2 a3 p :
  Logger_info (Middleware o) a1 a2 a3 p
    = ship o (log (defaultStack (config o)) "info" a1 a2) p /\
  Logger_warn (Middleware o) a1 a2 a3 p
    = ship o (log (defaultStack (config o)) "warn" a1 a2) p /\
  Logger_error (Middleware o) a1 a2 a3 p
    = ship o (log (defaultStack (config o)) "error" a1 a2) p /\
  Logger_debug (Middleware o) a1 a2 a3 p
    = ship o (log (defaultStack (config o)) "debug" a1 a2) p.
Proof. by split_and!. Qed.

Lemma shipped_requests o stack level a1 a2 p q :
  q ∈ page_requests (page_emitted p (ship o (log stack level a1 a2) p)) ->
  q = request_of o {| stack := stack; level := level; package := a1;
                      message := a2 |}.
Proof.
  rewrite ship_log, page_emitted_app, page_requests_shipped.
  apply (log_requests (page_world o p) stack level a1 a2 _ _ q
           (surjective_pairing _)).
Qed.

Lemma shipped_logger o stack level a1 a2 p :
  logger (ship o (log stack level a1 a2) p) = Some (Middleware o).
Proof. by rewrite ship_log. Qed.

(** The call of a helper, once the logger is known to be the instance. *)
Ltac through_middleware Hlogger :=
  unfold logPageLoad, logApiCall, logUrlShortening, logUrlClick,
    logConfigLoad, logPerformance, logAuthAction, logStorageOperation;
  rewrite (getLogger_some _ _ Hlogger);
  first [ rewrite (proj1 (Logger_middleware _ _ _ _ _))
        | rewrite (proj2 (proj2 (proj2 (Logger_middleware _ _ _ _ _)))) ].

(** X9. On a page whose logger is the middleware instance, the helpers
    that call [info(message, category, data)] ship a record whose
    [package] is the message text and whose [message] is the category,
    since the instance reads its arguments as [(packageName, message)];
    the data object is not shipped.  [logPageLoad] and [logApiCall] put
    the load time or status into the text as a template literal prints
    that number, and leave it out when it is absent or falsy (0 or
    NaN). *)
Theorem message_first_helpers p o q
    pageName loadTime endpoint method status originalUrl shortCode
    configName success :
  logger p = Some (Middleware o) ->
  let record package message :=
    {| stack := defaultStack (config o); level := "info";
       package := package; message := message |} in
  (q ∈ page_requests (page_emitted p (logPageLoad pageName loadTime p)) ->
   body q =
     record (match loadTime with
             | Some t =>
                 if num_truthy t
                 then pageName +:+ " page loaded in " +:+ num_text t +:+ "ms"
                 else pageName +:+ " page loaded"
             | None => pageName +:+ " page loaded"
             end) "page") /\
  (q ∈ page_requests (page_emitted p (logApiCall endpoint method status p)) ->
   body q =
     record (match status with
             | Some s =>
                 if num_truthy s
                 then "API " +:+ method +:+ " " +:+ endpoint
                        +:+ " - Status: " +:+ num_text s
                 else "API " +:+ method +:+ " " +:+ endpoint +:+ " initiated"
             | None => "API " +:+ method +:+ " " +:+ endpoint +:+ " initiated"
             end) "api") /\
  (q ∈ page_requests
         (page_emitted p (logUrlShortening originalUrl shortCode p)) ->
   body q =
     record ("URL shortened successfully: " +:+ originalUrl +:+ " -> "
               +:+ shortCode) "api") /\
  (q ∈ page_requests (page_emitted p (logUrlClick shortCode originalUrl p)) ->
   body q =
     record ("Short URL clicked: " +:+ shortCode +:+ " -> " +:+ originalUrl)
       "component") /\
  (q ∈ page_requests (page_emitted p (logConfigLoad configName success p)) ->
   body q =
     record (if success
             then "Configuration loaded successfully: " +:+ configName
             else "Failed to load configuration: " +:+ configName)
       "config").
Proof.
  intros Hlogger record. split_and!; through_middleware Hlogger;
    intros Hq; apply shipped_requests in Hq; subst q; simpl; unfold record.
  - by destruct loadTime as [t|]; simpl; [destruct (num_truthy t)|].
  - by destruct status as [s|]; simpl; [destruct (num_truthy s)|].
  - done.
  - done.
  - done.
Qed.

Lemma message_first_helpers_witness :
  let p := (initializeLogger (fresh_page (fun _ => HttpReply 200 (JsString "ok")))).2 in
  let loadTime := {| num_text := "123.5"; num_truthy := true |} in
  let p' := logPageLoad "Home" (Some loadTime) p in
  length (page_requests (page_emitted p p')) = 1%nat /\
  Forall (fun q => body q =
                     {| stack := "frontend"; level := "info";
                        package := "Home page loaded in 123.5ms";
                        message := "page" |})
    (page_requests (page_emitted p p')).
Proof.
  intros p loadTime p'. split; [vm_compute; reflexivity|].
  apply Forall_forall. intros q Hq.
  exact (proj1 (message_first_helpers p
                  (createFrontendLogger LOGGING_CONFIG_apiUrl
                     LOGGING_CONFIG_accessToken)
                  q "Home" (Some loadTime) "" "" None "" "" "" true eq_refl)
           Hq).
Defined.

(** X10. On a page whose logger is the middleware instance, the helpers
    that call [info(category, message)] or [debug(category, message)] ship
    the category as [package] and the text as [message]; [logPerformance]
    writes the value as a template literal prints that number and appends
    the unit, ['ms'] when none is given. *)
Theorem category_first_helpers p o q metric value unit action operation key
    success :
  logger p = Some (Middleware o) ->
  (q ∈ page_requests (page_emitted p (logPerformance metric value unit p)) ->
   body q =
     {| stack := defaultStack (config o); level := "info";
        package := "component";
        message := "Performance metric: " +:+ metric +:+ " = "
                     +:+ num_text value
                     +:+ match unit with Some u => u | None => "ms" end |}) /\
  (q ∈ page_requests (page_emitted p (logAuthAction action success p)) ->
   body q =
     {| stack := defaultStack (config o); level := "info";
        package := "auth";
        message := if success
                   then "Authentication action successful: " +:+ action
                   else "Authentication action failed: " +:+ action |}) /\
  (q ∈ page_requests
         (page_emitted p (logStorageOperation operation key success p)) ->
   body q =
     {| stack := defaultStack (config o); level := "debug";
        package := "utils";
        message := if success
                   then "Storage " +:+ operation +:+ " successful for key: "
                          +:+ key
                   else "Storage " +:+ operation +:+ " failed for key: "
                          +:+ key |}).
Proof.
  intros Hlogger. split_and!; through_middleware Hlogger;
    intros Hq; apply shipped_requests in Hq; subst q; simpl.
  - by destruct unit.
  - done.
  - done.
Qed.

Lemma category_first_helpers_witness :
  let p := (initializeLogger (fresh_page (fun _ => TimedOut))).2 in
  let value := {| num_text := "1e+21"; num_truthy := true |} in
  let p' := logPerformance "render" value (Some "s") p in
  length (page_requests (page_emitted p p')) = 3%nat /\
  Forall (fun q => body q =
                     {| stack := "frontend"; level := "info";
                        package := "component";
                        message := "Performance metric: render = 1e+21s" |})
    (page_requests (page_emitted p p')).
Proof.
  intros p value p'. split; [vm_compute; reflexivity|].
  apply Forall_forall. intros q Hq.
  exact (proj1 (category_first_helpers p
                  (createFrontendLogger LOGGING_CONFIG_apiUrl
                     LOGGING_CONFIG_accessToken)
                  q "render" value (Some "s") "" "" "" false eq_refl) Hq).
Defined.

(** ** One logger for the helpers *)

Lemma helper_through_middleware text1 text2 number value unit flag h p o p1 :
  h ∈ plain_helpers text1 text2 number value unit flag ->
  getLogger p = (Middleware o, p1) ->
  exists level a1 a2,
    h p = ship o (log (defaultStack (config o)) level a1 a2) p1.
Proof.
  intros Hh Hget. unfold plain_helpers in Hh.
  repeat (apply elem_of_cons in Hh as [->|Hh]);
    [| | | | | | | | by apply elem_of_nil in Hh];
    unfold logPageLoad, logApiCall, logUrlShortening, logUrlClick,
      logConfigLoad, logPerformance, logAuthAction, logStorageOperation;
    rewrite Hget;
    first [ rewrite (proj1 (Logger_middleware _ _ _ _ _))
          | rewrite (proj2 (proj2 (proj2 (Logger_middleware _ _ _ _ _)))) ];
    eexists _, _, _; reflexivity.
Qed.

Lemma helper_through_fallback text1 text2 number value unit flag h p p1 :
  h ∈ plain_helpers text1 text2 number value unit flag ->
  getLogger p = (fallbackLogger, p1) ->
  exists m text data, h p = page_emit (Printed m text data) p1.
Proof.
  intros Hh Hget. unfold plain_helpers in Hh.
  repeat (apply elem_of_cons in Hh as [->|Hh]);
    [| | | | | | | | by apply elem_of_nil in Hh];
    unfold logPageLoad, logApiCall, logUrlShortening, logUrlClick,
      logConfigLoad, logPerformance, logAuthAction, logStorageOperation;
    rewrite Hget; eexists _, _, _; reflexivity.
Qed.

Lemma getLogger_slot p :
  logger (getLogger p).2 = Some (getLogger p).1 /\
  page_dispatched (getLogger p).2 = page_dispatched p /\
  page_collector (getLogger p).2 = page_collector p /\
  page_clock (getLogger p).2 = page_clock p /\
  page_create (getLogger p).2 = page_create p.
Proof.
  unfold getLogger, initializeLogger.
  destruct (logger p) as [l|] eqn:Hl; [done|].
  by destruct (page_create p _ _).
Qed.

(** X11. Each of the eight helpers [logPageLoad], [logApiCall],
    [logUrlShortening], [logUrlClick], [logPerformance], [logAuthAction],
    [logStorageOperation] and [logConfigLoad] leaves in [logger] the
    logger it used.  That is the logger the page already had, if any;
    otherwise the call creates it, as the instance [createFrontendLogger]
    returns for [LOGGING_CONFIG], or as the fallback logger when that call
    throws, and a later call of one of the eight finds it there and creates
    no other. *)
Theorem helpers_share_one_logger text1 text2 number value unit flag h p :
  h ∈ plain_helpers text1 text2 number value unit flag ->
  logger (h p) = Some (getLogger p).1 /\
  getLogger (h p) = ((getLogger p).1, h p) /\
  (forall l, logger p = Some l -> logger (h p) = Some l) /\
  (forall o, logger p = None ->
     page_create p LOGGING_CONFIG_apiUrl LOGGING_CONFIG_accessToken = inl o ->
     logger (h p) = Some (Middleware o)) /\
  (forall error, logger p = None ->
     page_create p LOGGING_CONFIG_apiUrl LOGGING_CONFIG_accessToken
       = inr error ->
     logger (h p) = Some fallbackLogger).
Proof.
  intros Hh.
  assert (Hkept : logger (h p) = Some (getLogger p).1).
  { destruct (getLogger p) as [l p1] eqn:Hget.
    pose proof (getLogger_slot p) as (Hslot & _). rewrite Hget in Hslot.
    destruct l as [o|].
    - destruct (helper_through_middleware _ _ _ _ _ _ h p o p1 Hh Hget)
        as (level & a1 & a2 & ->).
      apply shipped_logger.
    - destruct (helper_through_fallback _ _ _ _ _ _ h p p1 Hh Hget)
        as (m & text & data & ->).
      exact Hslot. }
  split_and!.
  - done.
  - by rewrite (getLogger_some _ _ Hkept).
  - intros l Hl. by rewrite Hkept, (getLogger_some _ _ Hl).
  - intros o Hnone Hcreate. rewrite Hkept.
    unfold getLogger, initializeLogger. by rewrite Hnone, Hcreate.
  - intros error Hnone Hcreate. rewrite Hkept.
    unfold getLogger, initializeLogger. by rewrite Hnone, Hcreate.
Qed.

Lemma helpers_share_one_logger_witness :
  let p := fresh_page (fun _ => HttpReply 200 (JsString "ok")) in
  let p1 := logPageLoad "Home" None p in
  let p2 := logUrlClick "abc123" "https://example.org" p1 in
  logger p1 = Some (Middleware (createFrontendLogger LOGGING_CONFIG_apiUrl
                                  LOGGING_CONFIG_accessToken)) /\
  logger p2 = logger p1.
Proof.
  intros p p1 p2.
  pose (zero := {| num_text := "0"; num_truthy := false |}).
  assert (H1 : logPageLoad "Home" None
               ∈ plain_helpers "Home" "" None zero None true)
    by apply list_elem_of_here.
  assert (H2 : logUrlClick "abc123" "https://example.org"
               ∈ plain_helpers "abc123" "https://example.org" None zero None true)
    by (do 3 apply list_elem_of_further; apply list_elem_of_here).
  destruct (helpers_share_one_logger _ _ _ _ _ _ _ p H1)
    as (_ & _ & _ & Hnew & _).
  destruct (helpers_share_one_logger _ _ _ _ _ _ _ p1 H2)
    as (_ & _ & Hkeep & _).
  split.
  - by apply Hnew.
  - apply Hkeep. by apply Hnew.
Defined.

Lemma turns_dispatches logEntry attempt lastError w flow evs :
  turns logEntry attempt lastError w flow evs ->
  attempt <= retryAttempts (config (this w)) ->
  (1 <= length (requests evs))%nat.
Proof.
  destruct 1; intros Hle; autorewrite with observe; simpl; lia.
Qed.

Lemma log_dispatches w stack level packageName message :
  1 <= retryAttempts (config (this w)) ->
  (1 <= length (requests (emitted w (log stack level packageName message w).2)))%nat.
Proof.
  intros HN.
  destruct (log_turns w stack level packageName message)
    as (flow & evs & Hturns & ->).
  apply turns_dispatches in Hturns; [|simpl; lia].
  destruct flow; simpl; autorewrite with observe; simpl;
    rewrite ?app_nil_r; lia.
Qed.

(** X12. On a page that has no logger yet and where creating the
    instance succeeds, a call of one of the eight helpers [logPageLoad],
    [logApiCall], [logUrlShortening], [logUrlClick], [logPerformance],
    [logAuthAction], [logStorageOperation] and [logConfigLoad] makes, by
    the time the promise it drops has settled, between one and three
    requests, and each of them is a POST of [/logs] on the base URL of
    [LOGGING_CONFIG], with [Bearer] and the access token of
    [LOGGING_CONFIG] as [Authorization] and with the stack [frontend]. *)
Theorem first_helper_call_ships_as_frontend
    text1 text2 number value unit flag h p :
  h ∈ plain_helpers text1 text2 number value unit flag ->
  logger p = None ->
  page_create p = (fun url token => inl (createFrontendLogger url token)) ->
  let sent := page_requests (page_emitted p (h p)) in
  (1 <= length sent <= 3)%nat /\
  page_dispatched (h p) = (page_dispatched p + length sent)%nat /\
  Forall (fun q =>
            method q = "POST" /\
            baseURL q = LOGGING_CONFIG_apiUrl /\
            url q = "/logs" /\
            headers q !! "Authorization"
              = Some ("Bearer " +:+ LOGGING_CONFIG_accessToken) /\
            headers q !! "Content-Type" = Some "application/json" /\
            stack (body q) = "frontend") sent.
Proof.
  intros Hh Hnone Hcreate sent. unfold sent.
  set (o := createFrontendLogger LOGGING_CONFIG_apiUrl
              LOGGING_CONFIG_accessToken).
  assert (Hget : getLogger p = (Middleware o, set_logger (Middleware o) p)).
  { unfold getLogger, initializeLogger. by rewrite Hnone, Hcreate. }
  destruct (helper_through_middleware _ _ _ _ _ _ h p o _ Hh Hget)
    as (level & a1 & a2 & ->).
  rewrite ship_log. simpl page_effects. rewrite page_emitted_app.
  rewrite page_requests_shipped. simpl page_dispatched.
  set (w := page_world o (set_logger (Middleware o) p)).
  pose proof (log_effects_bounded w (defaultStack (config o)) level a1 a2)
    as (Hmax & _ & _).
  pose proof (log_dispatches w (defaultStack (config o)) level a1 a2
                ltac:(simpl; lia)) as Hmin.
  change (Z.to_nat (retryAttempts (config (this w)))) with 3%nat in Hmax.
  split_and!; [exact Hmin | exact Hmax | done |].
  apply Forall_forall. intros q Hq.
  rewrite (log_requests w _ _ _ _ _ _ q (surjective_pairing _) Hq).
  by split_and!.
Qed.

Lemma first_helper_call_ships_as_frontend_witness :
  let p := fresh_page (fun _ => HttpReply 503 JsNull) in
  let sent := page_requests (page_emitted p (logAuthAction "login" true p)) in
  length sent = 3%nat /\
  Forall (fun q => baseURL q = "http://20.244.56.144/evaluation-service" /\
                   stack (body q) = "frontend") sent.
Proof.
  intros p sent. split; [vm_compute; reflexivity|].
  pose (zero := {| num_text := "0"; num_truthy := false |}).
  assert (Hh : logAuthAction "login" true
               ∈ plain_helpers "login" "" None zero None true)
    by (do 5 apply list_elem_of_further; apply list_elem_of_here).
  destruct (first_helper_call_ships_as_frontend _ _ _ _ _ _ _ p Hh
              eq_refl eq_refl) as (_ & _ & Hall).
  apply (Forall_impl _ _ _ Hall). intros q (_ & Hb & _ & _ & _ & Hs).
  by split.
Defined.

(** X13. On a page whose logger is the fallback logger, each of the
    eight helpers [logPageLoad], [logApiCall], [logUrlShortening],
    [logUrlClick], [logPerformance], [logAuthAction],
    [logStorageOperation] and [logConfigLoad] writes one console line and
    nothing else: no request leaves.  The fallback logger reads its
    arguments as [(message, packageName, data)], so [logAuthAction], which
    passes the category first, prints it as the message and the text
    between the brackets; a missing data argument prints as the empty
    string. *)
Theorem helpers_on_fallback_print_one_line
    text1 text2 number value unit flag h p :
  logger p = Some fallbackLogger ->
  (h ∈ plain_helpers text1 text2 number value unit flag ->
   page_requests (page_emitted p (h p)) = [] /\
   page_dispatched (h p) = page_dispatched p /\
   exists m text data, page_emitted p (h p) = [Printed m text data]) /\
  page_emitted p (logPageLoad text1 None p)
    = [Printed console_info ("[INFO] [page] " +:+ text1 +:+ " page loaded")
         (PvString "")] /\
  page_emitted p (logAuthAction text1 true p)
    = [Printed console_info
         ("[INFO] [Authentication action successful: " +:+ text1 +:+ "] auth")
         (PvString "")] /\
  page_emitted p (logUrlClick text1 text2 p)
    = [Printed console_info
         ("[INFO] [component] Short URL clicked: " +:+ text1 +:+ " -> "
            +:+ text2)
         (PvObject [("shortCode", PvString text1);
                    ("originalUrl", PvString text2)])].
Proof.
  intros Hlogger.
  pose proof (getLogger_some _ _ Hlogger) as Hget.
  split_and!.
  - intros Hh.
    destruct (helper_through_fallback _ _ _ _ _ _ h p p Hh Hget)
      as (m & text & data & ->).
    unfold page_emit. rewrite page_emitted_app. simpl.
    split_and!; [done | done | by eexists _, _, _].
  - unfold logPageLoad. rewrite Hget. simpl. unfold page_emit.
    by rewrite page_emitted_app.
  - unfold logAuthAction. rewrite Hget. simpl. unfold page_emit.
    by rewrite page_emitted_app.
  - unfold logUrlClick. rewrite Hget. simpl. unfold page_emit.
    by rewrite page_emitted_app.
Qed.

Lemma helpers_on_fallback_print_one_line_witness :
  let broken := {| isAxiosError := false; response := None;
                   err_message := "axios is not defined" |} in
  let p0 := {| logger := None; page_effects := [];
               page_create := fun _ _ => inr broken;
               page_collector := fun _ => Rejected broken;
               page_dispatched := 0; page_clock := "" |} in
  let p := (initializeLogger p0).2 in
  page_effects p =
    [Warned "Failed to initialize logging middleware, using fallback logger:"
       broken] /\
  page_emitted p (logPageLoad "Home" None p)
    = [Printed console_info "[INFO] [page] Home page loaded" (PvString "")].
Proof.
  intros broken p0 p. split; [reflexivity|].
  pose (zero := {| num_text := "0"; num_truthy := false |}).
  exact (proj1 (proj2 (helpers_on_fallback_print_one_line
                         "Home" "" None zero None true (logPageLoad "Home" None)
                         p eq_refl))).
Defined.

(** ** utils/urlHelpers.ts *)

Lemma length_append (s1 s2 : string) :
  String.length (s1 +:+ s2) = (String.length s1 + String.length s2)%nat.
Proof. induction s1 as [|c s1 IH]; simpl; [done | by rewrite IH]. Qed.

Lemma length_substring_to (s : string) n :
  (n <= String.length s)%nat -> String.length (String.substring 0 n s) = n.
Proof.
  revert n. induction s as [|c s IH]; intros [|n] Hn; simpl in *;
    try done; [lia | rewrite IH; lia].
Qed.

Lemma prefix_substring_to (s : string) n :
  String.prefix (String.substring 0 n s) s = true.
Proof.
  revert n. induction s as [|c s IH]; intros [|n]; simpl; try done.
  destruct (Ascii.ascii_dec c c); [apply IH | done].
Qed.

(** X14. [formatUrlForDisplay] returns a URL that fits as it is.  A
    longer one is cut to its first [maxLength - 3] characters followed by
    three dots; for a limit of at least 3 the result then has exactly the
    limit as its length, never more, and formatting it again changes
    nothing.  Below 3 nothing of the URL is kept and the result, three
    dots, is longer than the limit.  The limit is 50 when none is given. *)
Theorem formatUrlForDisplay_fits (url : string) (maxLength : Z) :
  let out := formatUrlForDisplay url (Some maxLength) in
  (Z.of_nat (String.length url) <= maxLength -> out = url) /\
  (maxLength < Z.of_nat (String.length url) ->
   out = String.substring 0 (Z.to_nat (maxLength - 3)) url +:+ "..." /\
   String.prefix (String.substring 0 (Z.to_nat (maxLength - 3)) url) url
     = true) /\
  (3 <= maxLength ->
   Z.of_nat (String.length out) <= maxLength /\
   (maxLength < Z.of_nat (String.length url) ->
    Z.of_nat (String.length out) = maxLength) /\
   formatUrlForDisplay out (Some maxLength) = out) /\
  (maxLength < 3 -> maxLength < Z.of_nat (String.length url) ->
   out = "...") /\
  formatUrlForDisplay url None = formatUrlForDisplay url (Some 50).
Proof.
  intros out. unfold out, formatUrlForDisplay, substring_to. simpl default.
  destruct (Z.leb_spec (Z.of_nat (String.length url)) maxLength) as [Hfit|Hcut].
  - split_and!; try done; try lia.
    intros _. split_and!; [lia | lia |].
    by rewrite (proj2 (Z.leb_le _ _) Hfit).
  - split_and!; try done; try lia.
    + intros _. split; [done | apply prefix_substring_to].
    + intros H3.
      assert (Hlen : String.length
                       (String.substring 0 (Z.to_nat (maxLength - 3)) url
                          +:+ "...")
                     = Z.to_nat maxLength).
      { rewrite length_append, length_substring_to by lia. simpl. lia. }
      rewrite Hlen. split_and!; [lia | lia |].
      by rewrite (proj2 (Z.leb_le _ _)) by lia.
    + intros H3 _. by replace (Z.to_nat (maxLength - 3)) with 0%nat by lia;
        destruct url.
Qed.

Lemma formatUrlForDisplay_fits_witness :
  formatUrlForDisplay "https://example.org/a/very/long/path" (Some 20)
    = "https://example.o..." /\
  Z.of_nat (String.length
              (formatUrlForDisplay "https://example.org/a/very/long/path"
                 (Some 20))) <= 20.
Proof.
  split; [reflexivity|].
  apply (proj1 (proj1 (proj2 (proj2 (formatUrlForDisplay_fits
           "https://example.org/a/very/long/path" 20))) ltac:(lia))).
Defined.

(** The decimal text of a positive number begins with a digit. *)
Lemma pretty_starts_with_digit (n : Z) :
  0 < n ->
  exists c s, pretty n = String c s /\ (48 <= nat_of_ascii c <= 57)%nat.
Proof.
  intros Hn. unfold pretty, pretty_Z. destruct n as [|n|n]; try lia.
  unfold pretty, pretty_N.
  destruct (decide (N.pos n = 0)%N) as [|_]; [done|].
  assert (Hgo : forall x s, (0 < x)%N ->
            exists c s', pretty_N_go x s = String c s' /\
                         (48 <= nat_of_ascii c <= 57)%nat).
  { intros x. induction (N.lt_wf_0 x) as [x _ IH]. intros s Hx.
    rewrite pretty_N_go_step by done.
    destruct (decide (x `div` 10 = 0)%N) as [Hz|Hnz].
    - rewrite Hz, pretty_N_go_0. eexists _, _. split; [done|].
      unfold pretty_N_char. repeat case_match; vm_compute; lia.
    - apply IH; [apply N.div_lt; lia | by apply N.neq_0_lt_0]. }
  apply Hgo. lia.
Qed.

(** X15. [formatTimeRemaining] says ["Expired"] exactly when the expiry
    is not after the present, so also at the very millisecond of expiry,
    where [isUrlExpired] still answers false; whenever [isUrlExpired]
    holds, ["Expired"] is shown from then on.  Otherwise it shows the whole
    days left when there is at least one, else the whole hours, else the
    whole minutes, with a plural s unless the count is 1, and
    ["Less than 1 minute remaining"] below one minute: the count shown is
    never 0. *)
Theorem formatTimeRemaining_units (now expiresAt : Z) :
  let left := expiresAt - now in
  let count n unit :=
    pretty n +:+ unit +:+ (if n =? 1 then "" else "s") +:+ " remaining" in
  (left <= 0 <-> formatTimeRemaining now expiresAt = "Expired") /\
  (isUrlExpired now expiresAt = true ->
   forall later, now <= later ->
     formatTimeRemaining later expiresAt = "Expired") /\
  (isUrlExpired expiresAt expiresAt = false /\
   formatTimeRemaining expiresAt expiresAt = "Expired") /\
  (0 < left < 60000 ->
   formatTimeRemaining now expiresAt = "Less than 1 minute remaining") /\
  (60000 <= left < 3600000 ->
   formatTimeRemaining now expiresAt = count (left / 60000) " minute" /\
   1 <= left / 60000 < 60) /\
  (3600000 <= left < 86400000 ->
   formatTimeRemaining now expiresAt = count (left / 3600000) " hour" /\
   1 <= left / 3600000 < 24) /\
  (86400000 <= left ->
   formatTimeRemaining now expiresAt = count (left / 86400000) " day" /\
   1 <= left / 86400000).
Proof.
  intros left count.
  assert (Hexpired : forall t, expiresAt - t <= 0 ->
                               formatTimeRemaining t expiresAt = "Expired").
  { intros t Ht. unfold formatTimeRemaining.
    by rewrite (proj2 (Z.leb_le _ _) Ht). }
  assert (Hh : left / (1000 * 60) / 60 = left / 3600000)
    by (rewrite Z.div_div by lia; done).
  assert (Hd : left / (1000 * 60) / 60 / 24 = left / 86400000)
    by (rewrite !Z.div_div by lia; done).
  assert (Hrun : 0 < left ->
    formatTimeRemaining now expiresAt =
      if left / 86400000 >? 0 then count (left / 86400000) " day"
      else if left / 3600000 >? 0 then count (left / 3600000) " hour"
      else if left / 60000 >? 0 then count (left / 60000) " minute"
      else "Less than 1 minute remaining").
  { intros Hpos. unfold formatTimeRemaining. fold left.
    rewrite (proj2 (Z.leb_gt _ _) Hpos). cbv zeta. rewrite Hd, Hh.
    change (1000 * 60) with 60000. unfold count.
    by destruct (left / 86400000 =? 1), (left / 3600000 =? 1),
         (left / 60000 =? 1). }
  split_and!.
  - split; [apply Hexpired|]. intros Hout.
    destruct (Z.le_gt_cases left 0) as [|Hpos]; [done|]. exfalso.
    rewrite Hrun in Hout by lia. unfold count in Hout.
    assert (Hpretty : forall n rest, 0 < n -> pretty n +:+ rest <> "Expired").
    { intros n rest Hn Heq.
      destruct (pretty_starts_with_digit n Hn) as (c & s & Hp & Hc).
      rewrite Hp in Heq. simpl in Heq. injection Heq as -> _.
      vm_compute in Hc. lia. }
    destruct (Z.gtb_spec (left / 86400000) 0);
      [by eapply Hpretty|].
    destruct (Z.gtb_spec (left / 3600000) 0);
      [by eapply Hpretty|].
    destruct (Z.gtb_spec (left / 60000) 0);
      [by eapply Hpretty | done].
  - unfold isUrlExpired. intros Hgt later Hlater. apply Z.gtb_lt in Hgt.
    apply Hexpired. lia.
  - unfold isUrlExpired. rewrite Z.gtb_ltb. apply Z.ltb_irrefl.
  - apply Hexpired. lia.
  - intros Hr. rewrite Hrun by lia.
    rewrite !Z.div_small by lia. done.
  - intros Hr. rewrite Hrun by lia.
    rewrite (Z.div_small left 86400000), (Z.div_small left 3600000) by lia.
    simpl.
    assert (1 <= left / 60000 < 60) by (Z.div_mod_to_equations; lia).
    destruct (Z.gtb_spec (left / 60000) 0); [done | lia].
  - intros Hr. rewrite Hrun by lia.
    rewrite (Z.div_small left 86400000) by lia. simpl.
    assert (1 <= left / 3600000 < 24) by (Z.div_mod_to_equations; lia).
    destruct (Z.gtb_spec (left / 3600000) 0); [done | lia].
  - intros Hr. rewrite Hrun by lia.
    assert (1 <= left / 86400000) by (Z.div_mod_to_equations; lia).
    destruct (Z.gtb_spec (left / 86400000) 0); [done | lia].
Qed.

Lemma formatTimeRemaining_units_witness :
  formatTimeRemaining 1000 (1000 + 90000000) = "1 day remaining" /\
  formatTimeRemaining 1000 (1000 + 7200000) = "2 hours remaining" /\
  1 <= 7200000 / 3600000 < 24.
Proof.
  split; [reflexivity|].
  pose proof (formatTimeRemaining_units 1000 (1000 + 7200000))
    as (_ & _ & _ & _ & _ & Hhours & _).
  apply Hhours. lia.
Defined.

(** ** Trimming *)

Lemma trimStart_clean s : starts_clean (trimStart s) = true.
Proof.
  induction s as [|c s IH]; simpl; [done|].
  destruct (is_whitespace c) eqn:Hc; [done | simpl; by rewrite Hc].
Qed.

Lemma trimStart_of_clean s : starts_clean s = true -> trimStart s = s.
Proof.
  destruct s as [|c s]; simpl; [done|].
  by destruct (is_whitespace c).
Qed.

Lemma trimEnd_clean s : starts_clean s = true -> starts_clean (trimEnd s) = true.
Proof.
  destruct s as [|c s]; simpl; [done|]. intros Hc.
  destruct (trimEnd s); simpl; [|done].
  destruct (is_whitespace c) eqn:Hw; simpl; [done | by rewrite Hw].
Qed.

Lemma trimEnd_idem s : trimEnd (trimEnd s) = trimEnd s.
Proof.
  induction s as [|c s IH]; simpl; [done|].
  destruct (trimEnd s) as [|c' s'] eqn:Hs.
  - destruct (is_whitespace c) eqn:Hc; simpl; [done | by rewrite Hc].
  - simpl in *. by rewrite IH.
Qed.

Lemma trimEnd_cons c s :
  trimEnd s = s -> s <> "" -> trimEnd (String c s) = String c s.
Proof. intros Hs Hne. simpl. rewrite Hs. by destruct s. Qed.

Lemma trimEnd_prepend (prefix s : string) :
  trimEnd s = s -> s <> "" -> trimEnd (prefix +:+ s) = prefix +:+ s.
Proof.
  intros Hs Hne. induction prefix as [|c prefix IH]; [done|].
  change (String c prefix +:+ s) with (String c (prefix +:+ s)).
  apply trimEnd_cons; [done|]. by destruct prefix, s.
Qed.

Lemma trim_idem s : trim (trim s) = trim s.
Proof.
  unfold trim.
  rewrite (trimStart_of_clean (trimEnd (trimStart s)))
    by apply trimEnd_clean, trimStart_clean.
  apply trimEnd_idem.
Qed.

Lemma trim_is_trimmed s :
  trimEnd (trim s) = trim s /\ starts_clean (trim s) = true.
Proof.
  unfold trim. split; [apply trimEnd_idem|].
  apply trimEnd_clean, trimStart_clean.
Qed.

(** X16. [normalizeUrl] gives the empty string exactly for a blank
    input.  Otherwise the result is the trimmed input, with [https://] put
    in front unless it already begins with [http://] or [https://] in any
    letter case; so every non-empty result begins with such a scheme, and
    normalizing a result again gives it back. *)
Theorem normalizeUrl_normal (url : string) :
  let trimmed := trim url in
  let out := normalizeUrl url in
  (out = "" <-> trimmed = "") /\
  (trimmed <> "" -> has_http_scheme trimmed = true -> out = trimmed) /\
  (trimmed <> "" -> has_http_scheme trimmed = false ->
   out = "https://" +:+ trimmed) /\
  (out <> "" -> has_http_scheme out = true) /\
  normalizeUrl out = out.
Proof.
  intros trimmed out.
  destruct (trim_is_trimmed url) as [Hend Hclean]. fold trimmed in Hend, Hclean.
  assert (Hprefixed : trimmed <> "" ->
            trim ("https://" +:+ trimmed) = "https://" +:+ trimmed).
  { intros Hne. unfold trim.
    rewrite trimStart_of_clean by done.
    by apply trimEnd_prepend. }
  assert (Hnormal : forall s, trim s = s -> s <> "" ->
            has_http_scheme s = true -> normalizeUrl s = s).
  { intros s Hs Hne Hscheme. unfold normalizeUrl. rewrite Hs, Hscheme.
    by rewrite (proj2 (String.eqb_neq _ _) Hne). }
  assert (Htrim : trim trimmed = trimmed) by apply trim_idem.
  unfold out, normalizeUrl. fold trimmed.
  destruct (String.eqb_spec trimmed "") as [Hblank|Hne].
  - by split_and!.
  - destruct (has_http_scheme trimmed) eqn:Hscheme; simpl.
    + split_and!; try done. by apply Hnormal.
    + assert (Hout : "https://" +:+ trimmed <> "") by done.
      assert (Hhttps : has_http_scheme ("https://" +:+ trimmed) = true).
      { unfold has_http_scheme. simpl fold_case.
        by destruct (fold_case ("" +:+ trimmed)). }
      split_and!; try done.
      change (normalizeUrl ("https://" +:+ trimmed) = "https://" +:+ trimmed).
      apply Hnormal; [by apply Hprefixed | done | done].
Qed.

Lemma normalizeUrl_normal_witness :
  normalizeUrl "  example.org/path " = "https://example.org/path" /\
  normalizeUrl "HTTP://example.org" = "HTTP://example.org" /\
  normalizeUrl (normalizeUrl "  example.org/path ")
    = normalizeUrl "  example.org/path ".
Proof.
  split_and!; [reflexivity | reflexivity |].
  apply (proj2 (proj2 (proj2 (proj2
           (normalizeUrl_normal "  example.org/path "))))).
Defined.

(** ** Shortcodes *)

Lemma lower_unit_letter c :
  lower_letter (lower_unit c) = true -> shortcode_char c = true.
Proof. destruct c as [[] [] [] [] [] [] [] []]; by vm_compute. Qed.

Lemma toLowerCase_length s : String.length (toLowerCase s) = String.length s.
Proof. induction s as [|c s IH]; simpl; [done | by rewrite IH]. Qed.

Lemma toLowerCase_letters s :
  all_units lower_letter (toLowerCase s) = true ->
  all_units shortcode_char s = true.
Proof.
  induction s as [|c s IH]; simpl; [done|].
  intros [Hc Hs]%andb_true_iff.
  by rewrite (lower_unit_letter c Hc), IH.
Qed.

Lemma reserved_word_shape word :
  includes reservedWords word = true ->
  all_units lower_letter word = true /\
  (3 <= String.length word <= 10)%nat.
Proof.
  unfold includes, reservedWords. simpl.
  rewrite !orb_true_iff.
  intros [H|[H|[H|[H|[H|[H|[H|[H|H]]]]]]]]; try done;
    apply String.eqb_eq in H; subst word; (split; [reflexivity | simpl; lia]).
Qed.

(** X17. [validateShortcode] accepts a blank shortcode.  Any other one is
    valid exactly when, once trimmed, it has 3 to 20 characters, all of
    them letters, digits, hyphens or underscores, and is not a reserved
    word in any letter case; [isValid] holds exactly when no error is
    listed.  A reserved word gets the reserved-word error and no other,
    and no shortcode gets more than two errors. *)
Theorem validateShortcode_verdict (shortcode : string) :
  let trimmed := trim shortcode in
  let verdict := validateShortcode shortcode in
  (trimmed = "" -> verdict = {| isValid := true; errors := [] |}) /\
  (isValid verdict = true <-> errors verdict = []) /\
  (isValid verdict = true <->
   trimmed = "" \/
   ((3 <= String.length trimmed <= 20)%nat /\
    all_units shortcode_char trimmed = true /\
    includes reservedWords (toLowerCase trimmed) = false)) /\
  (includes reservedWords (toLowerCase trimmed) = true ->
   errors verdict = ["This shortcode is reserved and cannot be used"]) /\
  (length (errors verdict) <= 2)%nat.
Proof.
  intros trimmed verdict. unfold verdict, validateShortcode. fold trimmed.
  destruct (String.eqb_spec trimmed "") as [Hblank|Hne].
  { rewrite Hblank. simpl. split_and!; try done; try lia.
    split; [by left | done]. }
  assert (Hpattern : shortcode_pattern trimmed
                     = all_units shortcode_char trimmed).
  { unfold shortcode_pattern.
    by rewrite (proj2 (String.eqb_neq _ _) Hne). }
  assert (Hreserved : includes reservedWords (toLowerCase trimmed) = true ->
            (3 <= String.length trimmed <= 10)%nat /\
            all_units shortcode_char trimmed = true).
  { intros [Hletters Hlen]%reserved_word_shape.
    rewrite toLowerCase_length in Hlen.
    split; [done | by apply toLowerCase_letters]. }
  rewrite Hpattern. cbv zeta.
  destruct (Nat.ltb_spec (String.length trimmed) 3) as [Hshort|Hshort];
    destruct (Nat.ltb_spec 20 (String.length trimmed)) as [Hlong|Hlong];
    try lia;
    destruct (all_units shortcode_char trimmed) eqn:Hchars;
    destruct (includes reservedWords (toLowerCase trimmed)) eqn:Hres;
    simpl;
    try (destruct (Hreserved eq_refl) as [Hlen Hall]; first [lia | done]);
    (split_and!;
     [ done
     | done
     | split; [done | intros [?|(? & ? & ?)]; first [done | lia]]
     | done
     | lia ]) ||
    (split_and!;
     [ done
     | done
     | split; [intros _; right; split_and!; [lia | lia | done | done]
              | done]
     | done
     | lia ]).
Qed.

Lemma validateShortcode_verdict_witness :
  validateShortcode "  my-link_1 " = {| isValid := true; errors := [] |} /\
  errors (validateShortcode "Admin")
    = ["This shortcode is reserved and cannot be used"] /\
  errors (validateShortcode "a!")
    = ["Shortcode must be at least 3 characters long";
       "Shortcode can only contain letters, numbers, hyphens, and underscores"].
Proof.
  split_and!; [reflexivity | | reflexivity].
  apply (proj1 (proj2 (proj2 (proj2 (validateShortcode_verdict "Admin"))))).
  reflexivity.
Defined.
